(** * Thread manager and synchronisation primitives

    A shallow embedding of [thread_manager/sync.py] (ThreadBarrier,
    ThreadSemaphore, ThreadCountDownLatch), [thread_manager/manager.py]
    (ThreadManager) and the counters of [thread_manager_gui.py].

    Every [with self._lock:] block is one atomic transition of the object
    it guards; what other threads do between two such blocks is given
    explicitly, as a schedule.  Python integers are [Z]; clock readings
    and timeouts (Python floats, in seconds) are rationals. *)

From Stdlib Require Import ZArith QArith List Bool Lia.
From stdpp Require Import base option strings gmap.
Import ListNotations.

(** ** Python notions shared by the two source files *)

(** The exceptions the modelled code raises itself or lets through. *)
Inductive PyError : Type :=
  | ValueError
  | KeyError
  | RuntimeError
  | TimeoutError.

(** What a possibly blocking call has done once the schedule it was given
    is used up: it has returned a boolean, or its caller is still waiting. *)
Inductive Outcome : Type :=
  | Returned (b : bool)
  | Blocked.

Module Clock.

(** Truth value of an [Optional[float]] in [if timeout and ...]: [None]
    and zero are false, every other number is true. *)
Definition truthy (timeout : option Q) : bool :=
  match timeout with
  | None => false
  | Some t => negb (Qeq_bool t 0)
  end.

Definition Qgtb (x y : Q) : bool := negb (Qle_bool x y).

(** [timeout and (time.time() - start_time) > timeout], with [now] the
    value [time.time()] returns at this evaluation. *)
Definition expired (timeout : option Q) (start_time now : Q) : bool :=
  match timeout with
  | None => false
  | Some t => truthy (Some t) && Qgtb (now - start_time) t
  end.


End Clock.

(** [threading.Event] of the Python standard library, as far as the
    primitives use it: a flag that [set()] raises, and [wait(timeout)]
    that returns [True] at once when the flag is up and parks the caller
    otherwise. *)
Module Event.

Definition set (flag : bool) : bool := true.

Definition wait (flag : bool) : Outcome :=
  if flag then Returned true else Blocked.

(** A parked caller looks again: it leaves with [True] when the flag has
    been raised, with [False] when its timeout has run out, and stays
    parked otherwise. *)
Definition resume (flag timed_out : bool) : Outcome :=
  if flag then Returned true
  else if timed_out then Returned false
  else Blocked.

End Event.

(** ** sync.py: ThreadBarrier *)

Module ThreadBarrier.
Local Open Scope Z_scope.

Record t : Type := mk {
  _parties : Z;
  _count : Z;
  _event : bool
}.

Definition __init__ (parties : Z) : t :=
  {| _parties := parties; _count := parties; _event := false |}.

(** [wait]: the locked block, then [self._event.wait(timeout)] for a
    caller that did not bring the count to zero. *)
Definition wait (b : t) : t * Outcome :=
  let c := _count b - 1 in
  if c =? 0 then
    ({| _parties := _parties b;
        _count := _parties b;
        _event := Event.set (_event b) |}, Returned true)
  else
    let b' := {| _parties := _parties b; _count := c; _event := _event b |} in
    (b', Event.wait (_event b')).

(** [n] calls of [wait] one after the other, with their outcomes in
    call order. *)
Fixpoint waits (n : nat) (b : t) : t * list Outcome :=
  match n with
  | O => (b, [])
  | S n' =>
      let '(b1, o) := wait b in
      let '(b2, os) := waits n' b1 in
      (b2, o :: os)
  end.

End ThreadBarrier.

(** ** sync.py: ThreadSemaphore *)

Module ThreadSemaphore.
Local Open Scope Z_scope.

Record t : Type := mk {
  _value : Z;
  _event : bool
}.

Definition __init__ (value : Z) : t :=
  {| _value := value; _event := false |}.

(** The block [with self._lock: if self._value > 0: self._value -= 1;
    return True], which [_acquire] runs once before its loop and once in
    every iteration. *)
Definition take (s : t) : t * bool :=
  if 0 <? _value s then
    ({| _value := _value s - 1; _event := _event s |}, true)
  else (s, false).

Definition release (s : t) : t :=
  {| _value := _value s + 1; _event := Event.set (_event s) |}.

(** What another thread does to the semaphore: the locked block of an
    [_acquire] of its own, or a [release]. *)
Inductive Op : Type :=
  | OtherTake
  | OtherRelease.

Definition apply_op (s : t) (o : Op) : t :=
  match o with
  | OtherTake => fst (take s)
  | OtherRelease => release s
  end.

Definition apply_ops (ops : list Op) (s : t) : t :=
  fold_left apply_op ops s.

(** One iteration of the polling loop as the rest of the program sees
    it: what the other threads did since the caller's previous locked
    block, and what [time.time()] returns in this iteration. *)
Record Tick : Type := mkTick {
  others : list Op;
  now : Q
}.

(** The [while True:] loop of [_acquire]; [Blocked] when the schedule
    ends with the caller still in [time.sleep(0.1)]. *)
Fixpoint _acquire_loop (timeout : option Q) (start_time : Q)
    (sched : list Tick) (s : t) : t * Outcome :=
  match sched with
  | [] => (s, Blocked)
  | tk :: rest =>
      let s1 := apply_ops (others tk) s in
      if Clock.expired timeout start_time (now tk) then (s1, Returned false)
      else
        let '(s2, ok) := take s1 in
        if ok then (s2, Returned true)
        else _acquire_loop timeout start_time rest s2
  end.

Definition _acquire (timeout : option Q) (start_time : Q)
    (sched : list Tick) (s : t) : t * Outcome :=
  let '(s1, ok) := take s in
  if ok then (s1, Returned true)
  else _acquire_loop timeout start_time sched s1.

(** Entering the context manager [acquire]: the body runs ([inr true]),
    [TimeoutError] is raised, or the caller is still waiting
    ([inr false]).  Leaving the body is [release]. *)
Definition acquire (timeout : option Q) (start_time : Q)
    (sched : list Tick) (s : t) : t * (PyError + bool) :=
  match _acquire timeout start_time sched s with
  | (s', Returned true) => (s', inr true)
  | (s', Returned false) => (s', inl TimeoutError)
  | (s', Blocked) => (s', inr false)
  end.

(** The calls one thread after another makes on a shared semaphore. *)
Inductive Call : Type :=
  | CallAcquire (timeout : option Q) (start_time : Q) (sched : list Tick)
  | CallRelease.

Definition call (s : t) (c : Call) : t :=
  match c with
  | CallAcquire timeout start_time sched =>
      fst (_acquire timeout start_time sched s)
  | CallRelease => release s
  end.

Definition calls (cs : list Call) (s : t) : t := fold_left call cs s.

(** Calls of [_acquire] in sequence, with their outcomes. *)
Fixpoint acquires (cs : list (option Q * Q * list Tick)) (s : t)
    : t * list Outcome :=
  match cs with
  | [] => (s, [])
  | (timeout, start_time, sched) :: rest =>
      let '(s1, o) := _acquire timeout start_time sched s in
      let '(s2, os) := acquires rest s1 in
      (s2, o :: os)
  end.

(** No tick of the schedule contains a [release] by another thread. *)
Definition no_release (sched : list Tick) : Prop :=
  Forall (fun tk => Forall (fun o => o = OtherTake) (others tk)) sched.

(** The statement [with semaphore.acquire(timeout): ...].  [body] is what
    the block does while it holds the permit: it may leave the semaphore
    changed (other threads run meanwhile) and it ends normally or with an
    exception.  The [finally] of the generator runs [release] in both
    cases; a failed [_acquire] raises before the [try], so then neither
    the body nor [release] runs. *)
Inductive WithResult (A : Type) : Type :=
  | Completed (a : A)
  | Raised (e : PyError)
  | Waiting.

Definition with_acquire {A : Type} (timeout : option Q) (start_time : Q)
    (sched : list Tick) (body : t -> t * (PyError + A)) (s : t)
    : t * WithResult A :=
  match acquire timeout start_time sched s with
  | (s1, inl e) => (s1, Raised A e)
  | (s1, inr false) => (s1, Waiting A)
  | (s1, inr true) =>
      let '(s2, r) := body s1 in
      (release s2,
       match r with
       | inl e => Raised A e
       | inr a => Completed A a
       end)
  end.

(** What the other threads did over the first [n] iterations of a
    schedule. *)
Definition others_upto (n : nat) (sched : list Tick) : list Op :=
  concat (map others (firstn n sched)).

End ThreadSemaphore.

(** ** sync.py: ThreadCountDownLatch *)

Module ThreadCountDownLatch.
Local Open Scope Z_scope.

Record t : Type := mk {
  _count : Z;
  _event : bool
}.

Definition __init__ (count : Z) : t :=
  {| _count := count; _event := false |}.

Definition count_down (l : t) : t :=
  if 0 <? _count l then
    let c := _count l - 1 in
    {| _count := c;
       _event := if c =? 0 then Event.set (_event l) else _event l |}
  else l.

Definition wait_for_zero (l : t) : Outcome := Event.wait (_event l).

Definition count_downs (n : nat) (l : t) : t := Nat.iter n count_down l.

End ThreadCountDownLatch.

(** ** manager.py: ThreadManager *)

Module ThreadManager.
Local Open Scope Z_scope.

Inductive ThreadState : Type :=
  | IDLE
  | RUNNING
  | TERMINATED
  | ERROR.

Definition ThreadState_eqb (a b : ThreadState) : bool :=
  match a, b with
  | IDLE, IDLE | RUNNING, RUNNING | TERMINATED, TERMINATED | ERROR, ERROR => true
  | _, _ => false
  end.

(** Values a task receives and returns; [PyNone] is Python's [None],
    which is also what the [result] field holds before it is assigned. *)
Inductive PyVal : Type :=
  | PyNone
  | PyInt (n : Z)
  | PyStr (s : string).

(** What a task may raise: an instance of [Exception], or one of the
    exceptions that derive from [BaseException] only, which a handler
    [except Exception] does not catch. *)
Inductive Exn : Type :=
  | Exception (msg : string)
  | SystemExit (code : Z)
  | KeyboardInterrupt.

(** [isinstance(e, Exception)]. *)
Definition is_Exception (e : Exn) : bool :=
  match e with
  | Exception _ => true
  | SystemExit _ | KeyboardInterrupt => false
  end.

(** What calling the task on its [args] and [kwargs] does. *)
Inductive Completion : Type :=
  | Return (v : PyVal)
  | Raise (e : Exn).

Definition Callable : Type :=
  list PyVal -> list (string * PyVal) -> Completion.

Record ThreadInfo : Type := mkInfo {
  thread_id : Z;
  state : ThreadState;
  task : Callable;
  args : list PyVal;
  kwargs : list (string * PyVal);
  result : PyVal;
  error : option Exn
}.

Definition set_state (st : ThreadState) (i : ThreadInfo) : ThreadInfo :=
  mkInfo (thread_id i) st (task i) (args i) (kwargs i) (result i) (error i).

Definition set_result (v : PyVal) (i : ThreadInfo) : ThreadInfo :=
  mkInfo (thread_id i) (state i) (task i) (args i) (kwargs i) v (error i).

Definition set_error (e : Exn) (i : ThreadInfo) : ThreadInfo :=
  mkInfo (thread_id i) (state i) (task i) (args i) (kwargs i) (result i) (Some e).

(** *** The executor

    [concurrent.futures.ThreadPoolExecutor] of the Python standard
    library, as far as the manager uses it.  [submit] raises
    [RuntimeError] once [shutdown] has been called and otherwise queues
    one work item; a worker runs a queued item once, which completes its
    future with the value returned or the exception raised, whatever its
    class, and then calls the future's done callback with it.  The work
    item of
    [submit_task] is [self._execute_task] applied to the thread id, so
    the items are kept by that id.  The number of workers only limits
    how many items run at a time and is left out. *)

Inductive FutureResult : Type :=
  | FResult (v : PyVal)
  | FException (e : Exn).

Inductive Future : Type :=
  | Queued
  | Executing
  | Finished (r : FutureResult)
  | Notified (r : FutureResult).

Record Executor : Type := mkExecutor {
  _shutdown : bool;
  _work : gmap Z Future
}.

Record t : Type := mk {
  _executor : Executor;
  _threads : gmap Z ThreadInfo;
  _running : bool
}.

Definition set_threads (th : gmap Z ThreadInfo) (m : t) : t :=
  mk (_executor m) th (_running m).

Definition set_work (id : Z) (f : Future) (m : t) : t :=
  mk (mkExecutor (_shutdown (_executor m)) (<[id := f]> (_work (_executor m))))
     (_threads m) (_running m).

Definition __init__ : t :=
  mk (mkExecutor false ∅) ∅ true.

(** [submit_task]: the record is stored under the lock, then the work is
    handed to the executor, whose [submit] may raise. *)
Definition submit_task (f : Callable) (a : list PyVal)
    (k : list (string * PyVal)) (m : t) : t * (PyError + Z) :=
  let id := Z.of_nat (size (_threads m)) in
  let info := mkInfo id IDLE f a k PyNone None in
  let m1 := set_threads (<[id := info]> (_threads m)) m in
  if _shutdown (_executor m1) then (m1, inl RuntimeError)
  else (set_work id Queued m1, inr id).

(** [_execute_task] up to the [try]: the record is looked up ([None] is
    Python's [KeyError]) and marked RUNNING. *)
Definition _execute_task_enter (id : Z) (m : t) : option t :=
  info ← _threads m !! id;
  Some (set_threads (<[id := set_state RUNNING info]> (_threads m)) m).

(** [_execute_task] from the [try] on: the task is called; its value is
    returned, or its exception, when [except Exception] catches it, is
    recorded and raised again; an exception that is not an [Exception]
    passes through with nothing recorded.  In all cases the executor
    completes the future with the value or the exception. *)
Definition _execute_task_call (id : Z) (m : t) : option (t * FutureResult) :=
  info ← _threads m !! id;
  match task info (args info) (kwargs info) with
  | Return v => Some (m, FResult v)
  | Raise e =>
      if is_Exception e then
        Some (set_threads
                (<[id := set_state ERROR (set_error e info)]> (_threads m)) m,
              FException e)
      else Some (m, FException e)
  end.

(** [_handle_task_completion]: [future.result()] returns the value or
    raises the exception of the future; [except Exception] records the
    exception it catches, and any other exception leaves the callback
    with nothing written.  The second component is the exception that
    leaves the callback, if any. *)
Definition _handle_task_completion (id : Z) (fut : FutureResult) (m : t)
    : option (t * option Exn) :=
  info ← _threads m !! id;
  match fut with
  | FResult v =>
      Some (set_threads
              (<[id := set_state TERMINATED (set_result v info)]> (_threads m)) m,
            None)
  | FException e =>
      if is_Exception e then
        Some (set_threads
                (<[id := set_state ERROR (set_error e info)]> (_threads m)) m,
              None)
      else Some (m, Some e)
  end.

Definition get_thread_info (id : Z) (m : t) : t * option ThreadInfo :=
  (m, _threads m !! id).

(** [shutdown]: both flags are set.  With [wait=True] the caller is then
    held until the executor has no unfinished work, which changes
    nothing in the manager. *)
Definition shutdown (wait : bool) (m : t) : t :=
  mk (mkExecutor true (_work (_executor m))) (_threads m) false.

(** *** Transitions of a manager shared by submitting threads and workers *)

Inductive Event : Type :=
  | Submit (f : Callable) (a : list PyVal) (k : list (string * PyVal))
  | WorkerEnter (id : Z)
  | WorkerCall (id : Z)
  | WorkerCallback (id : Z)
  | Shutdown (wait : bool).

Inductive Response : Type :=
  | SubmitReturned (id : Z)
  | SubmitRaised (e : PyError)
  | Done
  | WorkerDied (e : Exn)
  | NotEnabled.

(** A worker event happens only when the executor has the work item in
    the matching phase; otherwise nothing happens.  An exception that
    leaves the done callback is logged by the executor when it is an
    [Exception]; the callback lets none of those out, and any other one
    ends the worker thread that ran the callback. *)
Definition step (m : t) (ev : Event) : t * Response :=
  match ev with
  | Submit f a k =>
      match submit_task f a k m with
      | (m', inr id) => (m', SubmitReturned id)
      | (m', inl e) => (m', SubmitRaised e)
      end
  | WorkerEnter id =>
      match _work (_executor m) !! id with
      | Some Queued =>
          match _execute_task_enter id m with
          | Some m' => (set_work id Executing m', Done)
          | None => (m, NotEnabled)
          end
      | _ => (m, NotEnabled)
      end
  | WorkerCall id =>
      match _work (_executor m) !! id with
      | Some Executing =>
          match _execute_task_call id m with
          | Some (m', r) => (set_work id (Finished r) m', Done)
          | None => (m, NotEnabled)
          end
      | _ => (m, NotEnabled)
      end
  | WorkerCallback id =>
      match _work (_executor m) !! id with
      | Some (Finished r) =>
          match _handle_task_completion id r m with
          | Some (m', None) => (set_work id (Notified r) m', Done)
          | Some (m', Some e) => (set_work id (Notified r) m', WorkerDied e)
          | None => (m, NotEnabled)
          end
      | _ => (m, NotEnabled)
      end
  | Shutdown wait => (shutdown wait m, Done)
  end.

Fixpoint run (evs : list Event) (m : t) : t * list Response :=
  match evs with
  | [] => (m, [])
  | ev :: rest =>
      let '(m1, r) := step m ev in
      let '(m2, rs) := run rest m1 in
      (m2, r :: rs)
  end.

(** The ids the [submit_task] calls of a run returned, in call order. *)
Fixpoint returned_ids (rs : list Response) : list Z :=
  match rs with
  | [] => []
  | SubmitReturned id :: rest => id :: returned_ids rest
  | _ :: rest => returned_ids rest
  end.

Definition is_submit (ev : Event) : bool :=
  match ev with Submit _ _ _ => true | _ => false end.

Definition is_shutdown (ev : Event) : bool :=
  match ev with Shutdown _ => true | _ => false end.

(** *** wait_for_thread *)

(** One iteration of the polling loop: the clock reading of its timeout
    test, and what the other threads do during its [time.sleep(0.1)]. *)
Record Tick : Type := mkTick {
  now : Q;
  during_sleep : list Event
}.

Definition is_running (id : Z) (m : t) : option bool :=
  info ← _threads m !! id;
  Some (ThreadState_eqb (state info) RUNNING).

Fixpoint _wait_loop (id : Z) (timeout : option Q) (start_time : Q)
    (sched : list Tick) (m : t) : t * (PyError + Outcome) :=
  match is_running id m with
  | None => (m, inl KeyError)
  | Some false => (m, inr (Returned true))
  | Some true =>
      match sched with
      | [] => (m, inr Blocked)
      | tk :: rest =>
          if Clock.expired timeout start_time (now tk)
          then (m, inr (Returned false))
          else _wait_loop id timeout start_time rest
                 (fst (run (during_sleep tk) m))
      end
  end.

Definition wait_for_thread (id : Z) (timeout : option Q) (start_time : Q)
    (sched : list Tick) (m : t) : t * (PyError + Outcome) :=
  match _threads m !! id with
  | None => (m, inl ValueError)
  | Some _ => _wait_loop id timeout start_time sched m
  end.

(** *** Reading a record *)

Definition result_populated (i : ThreadInfo) : bool :=
  match result i with PyNone => false | _ => true end.

Definition error_populated (i : ThreadInfo) : bool :=
  match error i with None => false | Some _ => true end.

Definition exactly_one_populated (i : ThreadInfo) : bool :=
  xorb (result_populated i) (error_populated i).

(** *** Invariant of the manager

    What the executor knows about a work item fixes what its record
    holds.  A record without a work item is one whose submission the
    executor refused. *)

Definition call_of (i : ThreadInfo) : Completion :=
  task i (args i) (kwargs i).

Definition phase_ok (i : ThreadInfo) (fut : option Future) : Prop :=
  match fut with
  | None | Some Queued =>
      state i = IDLE /\ result i = PyNone /\ error i = None
  | Some Executing =>
      state i = RUNNING /\ result i = PyNone /\ error i = None
  | Some (Finished (FResult v)) =>
      state i = RUNNING /\ result i = PyNone /\ error i = None /\
      call_of i = Return v
  | Some (Finished (FException e)) | Some (Notified (FException e)) =>
      (if is_Exception e
       then state i = ERROR /\ error i = Some e
       else state i = RUNNING /\ error i = None) /\
      result i = PyNone /\ call_of i = Raise e
  | Some (Notified (FResult v)) =>
      state i = TERMINATED /\ result i = v /\ error i = None /\
      call_of i = Return v
  end.

Record wf_maps (th : gmap Z ThreadInfo) (wk : gmap Z Future) : Prop := {
  wf_dom : forall id, is_Some (th !! id) <-> 0 <= id < Z.of_nat (size th);
  wf_id : forall id i, th !! id = Some i -> thread_id i = id;
  wf_phase : forall id i, th !! id = Some i -> phase_ok i (wk !! id);
  wf_work : forall id, is_Some (wk !! id) -> is_Some (th !! id)
}.

Definition wf (m : t) : Prop := wf_maps (_threads m) (_work (_executor m)).

Fixpoint count_submits (evs : list Event) : nat :=
  match evs with
  | [] => O
  | ev :: rest => ((if is_submit ev then 1 else 0) + count_submits rest)%nat
  end.

Definition no_shutdown (evs : list Event) : bool :=
  forallb (fun ev => negb (is_shutdown ev)) evs.

(** The state changes a record can go through in one step. *)
Definition transition (a b : ThreadState) : bool :=
  match a, b with
  | IDLE, RUNNING | RUNNING, TERMINATED | RUNNING, ERROR => true
  | _, _ => ThreadState_eqb a b
  end.

(** The same record up to [state], [result] and [error]. *)
Definition same_task (i i' : ThreadInfo) : Prop :=
  thread_id i' = thread_id i /\ task i' = task i /\
  args i' = args i /\ kwargs i' = kwargs i.

Definition is_worker_event (ev : Event) : bool :=
  match ev with
  | WorkerEnter _ | WorkerCall _ | WorkerCallback _ => true
  | _ => false
  end.

(** *** Iterating over the records without the lock

    [self._threads.values()] is read one value at a time, in insertion
    order, with no lock held, so the other threads run between two reads.
    At every step the iterator first checks that the dict still has the
    size it had when the iteration began, and raises [RuntimeError]
    otherwise; then it yields the next value, or stops.  [submit_task]
    inserts under the key [len(self._threads)], so the value at position
    [k] is the record of id [k].  The test of the comprehension then
    reads the record it was handed, which is the record itself and not a
    copy: it sees the state the record has at that moment.  The list
    built holds the records themselves; here, their ids. *)

Record IterTick : Type := mkIterTick {
  before_next : list Event;
  before_read : list Event
}.

Definition quiet_tick : IterTick := mkIterTick [] [].

Fixpoint _iterate (test : ThreadInfo -> bool) (size0 k remaining : nat)
    (sched : list IterTick) (m : t) : t * (PyError + list Z) :=
  let tk := hd quiet_tick sched in
  let m1 := fst (run (before_next tk) m) in
  if negb (Nat.eqb (size (_threads m1)) size0) then (m1, inl RuntimeError)
  else
    match remaining with
    | O => (m1, inr [])
    | S r =>
        let m2 := fst (run (before_read tk) m1) in
        let keep :=
          match _threads m2 !! Z.of_nat k with
          | Some info => test info
          | None => false
          end in
        match _iterate test size0 (S k) r (tl sched) m2 with
        | (m3, inl e) => (m3, inl e)
        | (m3, inr ids) => (m3, inr (if keep then Z.of_nat k :: ids else ids))
        end
    end.

Definition has_state (st : ThreadState) (info : ThreadInfo) : bool :=
  ThreadState_eqb (state info) st.

(** [[info for info in self._threads.values()
      if info.state == ThreadState.RUNNING]]. *)
Definition get_active_threads (sched : list IterTick) (m : t)
    : t * (PyError + list Z) :=
  _iterate (has_state RUNNING) (size (_threads m)) 0 (size (_threads m)) sched m.

(** [m'] is [m] after some steps of the threads that share it. *)
Definition reaches (m m' : t) : Prop := exists evs, m' = fst (run evs m).

(** How far a record has come. *)
Definition rank (st : ThreadState) : nat :=
  match st with
  | IDLE => 0
  | RUNNING => 1
  | TERMINATED | ERROR => 2
  end.

Definition no_submit (evs : list Event) : bool :=
  forallb (fun ev => negb (is_submit ev)) evs.

(** No [submit_task] runs around this step of an iteration. *)
Definition tick_no_submit (tk : IterTick) : Prop :=
  no_submit (before_next tk) = true /\ no_submit (before_read tk) = true.

End ThreadManager.

(** ** thread_manager_gui.py: the counters of update_statistics *)

Module ThreadManagerGUI.

Record Statistics : Type := mkStatistics {
  active : nat;
  completed : nat;
  errors : nat;
  total : nat
}.

(** One pass [sum(1 for info in self.thread_manager._threads.values()
    if info.state.name == ...)]: what the other threads do before it
    begins, and during it. *)
Record Pass : Type := mkPass {
  before_pass : list ThreadManager.Event;
  during_pass : list ThreadManager.IterTick
}.

Definition quiet_pass : Pass := mkPass [] [].

Definition count_state (st : ThreadManager.ThreadState) (p : Pass)
    (m : ThreadManager.t) : ThreadManager.t * (PyError + nat) :=
  let m0 := fst (ThreadManager.run (before_pass p) m) in
  match ThreadManager._iterate (ThreadManager.has_state st)
          (size (ThreadManager._threads m0)) 0
          (size (ThreadManager._threads m0)) (during_pass p) m0 with
  | (m', inl e) => (m', inl e)
  | (m', inr ids) => (m', inr (length ids))
  end.

(** The three passes and the final [len(self.thread_manager._threads)],
    each reading the manager as it is by then. *)
Definition update_statistics (p1 p2 p3 : Pass)
    (before_len : list ThreadManager.Event) (m : ThreadManager.t)
    : ThreadManager.t * (PyError + Statistics) :=
  match count_state ThreadManager.RUNNING p1 m with
  | (m1, inl e) => (m1, inl e)
  | (m1, inr n_active) =>
      match count_state ThreadManager.TERMINATED p2 m1 with
      | (m2, inl e) => (m2, inl e)
      | (m2, inr n_completed) =>
          match count_state ThreadManager.ERROR p3 m2 with
          | (m3, inl e) => (m3, inl e)
          | (m3, inr n_errors) =>
              let m4 := fst (ThreadManager.run before_len m3) in
              (m4, inr (mkStatistics n_active n_completed n_errors
                          (size (ThreadManager._threads m4))))
          end
      end
  end.

End ThreadManagerGUI.

(** * Properties of the synchronisation primitives *)

Section ClockFacts.
Import Clock.

Lemma truthy_zero : truthy (Some 0%Q) = false.
Proof. reflexivity. Qed.

Lemma expired_zero (start_time now : Q) :
  expired (Some 0%Q) start_time now = false.
Proof. reflexivity. Qed.

Lemma expired_true (timeout : option Q) (start_time now : Q) :
  expired timeout start_time now = true <->
  exists t, timeout = Some t /\ ~ (t == 0)%Q /\ (t < now - start_time)%Q.
Proof.
  unfold expired, truthy, Qgtb. split.
  - destruct timeout as [t|]; [|discriminate].
    intros H. apply andb_true_iff in H as [Hz Hgt].
    apply negb_true_iff in Hz, Hgt.
    exists t. split; [reflexivity|]. split.
    + intros Heq. apply Qeq_bool_iff in Heq. congruence.
    + apply Qnot_le_lt. intros Hle. apply Qle_bool_iff in Hle. congruence.
  - intros (t & -> & Hz & Hgt). apply andb_true_iff. split; apply negb_true_iff.
    + destruct (Qeq_bool t 0) eqn:E; [|reflexivity].
      apply Qeq_bool_iff in E. contradiction.
    + destruct (Qle_bool (now - start_time) t) eqn:E; [|reflexivity].
      apply Qle_bool_iff in E. exfalso. exact (Qlt_not_le _ _ Hgt E).
Qed.



End ClockFacts.

Section BarrierFacts.
Import ThreadBarrier.
Local Open Scope Z_scope.

Lemma waits_app (n k : nat) (b : t) :
  waits (n + k) b =
  (fst (waits k (fst (waits n b))),
   snd (waits n b) ++ snd (waits k (fst (waits n b)))).
Proof.
  revert b. induction n as [|n IH]; intros b; simpl.
  - destruct (waits k b); reflexivity.
  - destruct (wait b) as [b1 o]. rewrite IH.
    destruct (waits n b1) as [b2 os]. reflexivity.
Qed.

(** Arrivals that leave the count above zero only decrement it, and each
    of them goes on to wait on the event as it stands. *)
Lemma waits_partial (parties : Z) (flag : bool) (k : nat) (c : Z) :
  Z.of_nat k < c ->
  waits k (mk parties c flag) =
  (mk parties (c - Z.of_nat k) flag, repeat (Event.wait flag) k).
Proof.
  revert c. induction k as [|k IH]; intros c Hc.
  - simpl. f_equal. f_equal. lia.
  - cbn [waits]. unfold wait. cbn [_count _parties _event].
    destruct (Z.eqb_spec (c - 1) 0) as [E|_]; [lia|].
    rewrite IH by lia. cbn [repeat]. f_equal. f_equal. lia.
Qed.

(** A full round from a count equal to [parties]: every arrival but the
    last waits on the event, the last one returns [True], raises the
    event and restores the count. *)
Lemma waits_round (flag : bool) (n : nat) :
  waits (S n) (mk (Z.of_nat (S n)) (Z.of_nat (S n)) flag) =
  (mk (Z.of_nat (S n)) (Z.of_nat (S n)) true,
   repeat (Event.wait flag) n ++ [Returned true]).
Proof.
  replace (S n) with (n + 1)%nat at 1 by lia.
  rewrite waits_app, waits_partial by lia.
  cbn [fst snd waits]. unfold wait. cbn [_count _parties _event].
  destruct (Z.eqb_spec (Z.of_nat (S n) - Z.of_nat n - 1) 0) as [_|E]; [|lia].
  reflexivity.
Qed.

(** The first round of a fresh barrier is a rendezvous: the callers
    before the last one block, with the event still down however many of
    them have arrived, and the last arrival releases them. *)
Lemma barrier_first_round (n k : nat) :
  (k <= n)%nat ->
  waits k (__init__ (Z.of_nat (S n))) =
    (mk (Z.of_nat (S n)) (Z.of_nat (S n) - Z.of_nat k) false, repeat Blocked k) /\
  waits (S n) (__init__ (Z.of_nat (S n))) =
    (mk (Z.of_nat (S n)) (Z.of_nat (S n)) true, repeat Blocked n ++ [Returned true]).
Proof.
  intros Hk. split.
  - unfold __init__. rewrite waits_partial by lia. reflexivity.
  - unfold __init__. rewrite waits_round. reflexivity.
Qed.

(** C1, evaluated on the code: for a barrier of [P = n + 1 >= 2]
    parties, once the first round is over the event stays raised, so in
    the second round the [k]-th arrival, for every [k < P], returns
    [True] at once instead of blocking until all [P] parties of that
    round have arrived. *)
Theorem barrier_second_round_returns_at_once (n k : nat) :
  (1 <= k <= n)%nat ->
  let after_round := fst (waits (S n) (__init__ (Z.of_nat (S n)))) in
  snd (waits (S n) (__init__ (Z.of_nat (S n)))) = repeat Blocked n ++ [Returned true] /\
  after_round = mk (Z.of_nat (S n)) (Z.of_nat (S n)) true /\
  snd (waits k after_round) = repeat (Returned true) k /\
  _count (fst (waits k after_round)) = Z.of_nat (S n) - Z.of_nat k /\
  _count (fst (waits k after_round)) <> 0.
Proof.
  intros Hk. cbv zeta.
  destruct (barrier_first_round n 0 ltac:(lia)) as [_ ->]. cbn [fst snd].
  rewrite waits_partial by lia. cbn [fst snd _count].
  repeat split; try reflexivity. lia.
Qed.

Lemma barrier_second_round_returns_at_once_witness :
  snd (waits 1 (fst (waits 2 (__init__ 2)))) = [Returned true] /\
  _count (fst (waits 1 (fst (waits 2 (__init__ 2))))) <> 0.
Proof.
  pose proof (barrier_second_round_returns_at_once 1 1 ltac:(lia)) as H.
  cbv zeta in H. destruct H as (_ & _ & H3 & _ & H5).
  split; [exact H3 | exact H5].
Defined.

End BarrierFacts.

Section LatchFacts.
Import ThreadCountDownLatch.
Local Open Scope Z_scope.

Lemma count_downs_S (n : nat) (l : t) :
  count_downs (S n) l = count_down (count_downs n l).
Proof. reflexivity. Qed.

Lemma count_downs_partial (k : nat) (c : Z) (flag : bool) :
  Z.of_nat k < c ->
  count_downs k (mk c flag) = mk (c - Z.of_nat k) flag.
Proof.
  induction k as [|k IH]; intros Hc.
  - simpl. f_equal. lia.
  - rewrite count_downs_S, IH by lia. unfold count_down. cbn [_count _event].
    destruct (Z.ltb_spec 0 (c - Z.of_nat k)) as [_|E]; [|lia].
    destruct (Z.eqb_spec (c - Z.of_nat k - 1) 0) as [E|_]; [lia|].
    f_equal. lia.
Qed.

Lemma count_down_at_zero (c : Z) (flag : bool) :
  c <= 0 -> count_down (mk c flag) = mk c flag.
Proof.
  intros Hc. unfold count_down. cbn [_count].
  destruct (Z.ltb_spec 0 c); [lia | reflexivity].
Qed.

Lemma count_downs_at_zero (n : nat) (c : Z) (flag : bool) :
  c <= 0 -> count_downs n (mk c flag) = mk c flag.
Proof.
  intros Hc. induction n as [|n IH]; [reflexivity|].
  rewrite count_downs_S, IH. apply count_down_at_zero, Hc.
Qed.

Lemma count_downs_add (n k : nat) (l : t) :
  count_downs (n + k) l = count_downs n (count_downs k l).
Proof. unfold count_downs. apply Nat.iter_add. Qed.

(** A latch built with a count [K >= 1] opens at the [K]-th
    [count_down], not before, and later calls change nothing. *)
Lemma latch_positive_count (K extra : nat) :
  (1 <= K)%nat ->
  wait_for_zero (count_downs (K - 1) (__init__ (Z.of_nat K))) = Blocked /\
  count_downs K (__init__ (Z.of_nat K)) = mk 0 true /\
  wait_for_zero (count_downs K (__init__ (Z.of_nat K))) = Returned true /\
  count_downs (extra + K) (__init__ (Z.of_nat K)) = mk 0 true.
Proof.
  intros HK.
  assert (HKth : count_downs K (__init__ (Z.of_nat K)) = mk 0 true).
  { replace K with (S (K - 1)) at 1 by lia.
    rewrite count_downs_S. unfold __init__.
    rewrite count_downs_partial by lia. unfold count_down. cbn [_count _event].
    destruct (Z.ltb_spec 0 (Z.of_nat K - Z.of_nat (K - 1))) as [_|E]; [|lia].
    destruct (Z.eqb_spec (Z.of_nat K - Z.of_nat (K - 1) - 1) 0) as [_|E]; [|lia].
    f_equal. lia. }
  split; [|split; [|split]].
  - unfold __init__. rewrite count_downs_partial by lia. reflexivity.
  - exact HKth.
  - rewrite HKth. reflexivity.
  - rewrite count_downs_add, HKth. apply count_downs_at_zero. lia.
Qed.

(** C2, evaluated on the code at [K = 0]: a latch built with count 0
    never raises its event, whatever the number of [count_down] calls,
    so [wait_for_zero] does not return [True] after [K = 0] calls nor
    after any later one. *)
Theorem latch_zero_count_never_opens (n : nat) :
  count_downs n (__init__ 0) = __init__ 0 /\
  wait_for_zero (count_downs n (__init__ 0)) = Blocked /\
  Event.resume (_event (count_downs n (__init__ 0))) true = Returned false.
Proof.
  unfold __init__. rewrite count_downs_at_zero by lia.
  repeat split; reflexivity.
Qed.

End LatchFacts.

Section SemaphoreFacts.
Import ThreadSemaphore.
Local Open Scope Z_scope.

Lemma take_positive (s : t) :
  0 < _value s -> take s = (mk (_value s - 1) (_event s), true).
Proof.
  intros H. unfold take. destruct (Z.ltb_spec 0 (_value s)); [reflexivity | lia].
Qed.

Lemma take_empty (s : t) : _value s <= 0 -> take s = (s, false).
Proof.
  intros H. unfold take. destruct (Z.ltb_spec 0 (_value s)); [lia | reflexivity].
Qed.

Lemma take_true (s s' : t) :
  take s = (s', true) -> 0 < _value s /\ _value s' = _value s - 1.
Proof.
  unfold take. destruct (Z.ltb_spec 0 (_value s)) as [Hlt|Hge];
    intros H; inversion H.
  split; [assumption | reflexivity].
Qed.

Lemma take_nonneg (s : t) : 0 <= _value s -> 0 <= _value (fst (take s)).
Proof.
  intros H. unfold take.
  destruct (Z.ltb_spec 0 (_value s)); cbn [fst _value]; lia.
Qed.

Lemma release_nonneg (s : t) : 0 <= _value s -> 0 <= _value (release s).
Proof. intros H. unfold release. cbn [_value]. lia. Qed.

Lemma apply_ops_nonneg (ops : list Op) (s : t) :
  0 <= _value s -> 0 <= _value (apply_ops ops s).
Proof.
  revert s. unfold apply_ops.
  induction ops as [|o ops IH]; intros s H; cbn [fold_left]; [assumption|].
  apply IH. destruct o; cbn [apply_op]; auto using take_nonneg, release_nonneg.
Qed.

Lemma _acquire_loop_nonneg (timeout : option Q) (start_time : Q)
    (sched : list Tick) (s : t) :
  0 <= _value s -> 0 <= _value (fst (_acquire_loop timeout start_time sched s)).
Proof.
  revert s. induction sched as [|tk rest IH]; intros s H; cbn [_acquire_loop].
  - assumption.
  - pose proof (apply_ops_nonneg (others tk) s H) as H1.
    destruct (Clock.expired timeout start_time (now tk)); [assumption|].
    pose proof (take_nonneg _ H1) as H2.
    destruct (take (apply_ops (others tk) s)) as [s2 [|]]; cbn [fst] in *.
    + assumption.
    + apply IH, H2.
Qed.

Lemma _acquire_nonneg (timeout : option Q) (start_time : Q)
    (sched : list Tick) (s : t) :
  0 <= _value s -> 0 <= _value (fst (_acquire timeout start_time sched s)).
Proof.
  intros H. unfold _acquire. pose proof (take_nonneg s H) as H1.
  destruct (take s) as [s1 [|]]; cbn [fst] in *; [assumption|].
  apply _acquire_loop_nonneg, H1.
Qed.

(** Other threads that only try to take permits leave an empty semaphore
    as it is. *)
Lemma apply_ops_only_takes (ops : list Op) (s : t) :
  Forall (fun o => o = OtherTake) ops -> _value s <= 0 -> apply_ops ops s = s.
Proof.
  intros Hall Hs. unfold apply_ops.
  induction Hall as [|o ops -> _ IH]; cbn [fold_left apply_op]; [reflexivity|].
  rewrite take_empty by assumption. exact IH.
Qed.


(** With no permit and no [release] by anyone, the loop never returns
    [True] and leaves the semaphore alone. *)
Lemma _acquire_loop_no_release (timeout : option Q) (start_time : Q)
    (sched : list Tick) (s : t) :
  _value s <= 0 -> no_release sched ->
  _acquire_loop timeout start_time sched s = (s, Blocked) \/
  _acquire_loop timeout start_time sched s = (s, Returned false).
Proof.
  intros Hs Hq. induction Hq as [|tk rest Htk _ IH]; cbn [_acquire_loop].
  - left; reflexivity.
  - rewrite (apply_ops_only_takes _ _ Htk Hs).
    destruct (Clock.expired timeout start_time (now tk)); [right; reflexivity|].
    rewrite take_empty by assumption. exact IH.
Qed.


(** The loop returns [False] only in an iteration whose timeout test
    holds. *)
Lemma _acquire_loop_false (timeout : option Q) (start_time : Q)
    (sched : list Tick) (s s' : t) :
  _acquire_loop timeout start_time sched s = (s', Returned false) ->
  exists tk, In tk sched /\ Clock.expired timeout start_time (now tk) = true.
Proof.
  revert s. induction sched as [|tk rest IH]; intros s; cbn [_acquire_loop];
    [discriminate|].
  destruct (Clock.expired timeout start_time (now tk)) eqn:E.
  - intros _. exists tk. cbn [In]. auto.
  - destruct (take (apply_ops (others tk) s)) as [s2 [|]]; [discriminate|].
    intros H. destruct (IH _ H) as (tk' & Hin & Hex). exists tk'. cbn [In]. auto.
Qed.

Lemma acquires_all_succeed (cs : list (option Q * Q * list Tick)) (s : t) :
  _value s = Z.of_nat (length cs) ->
  acquires cs s = (mk 0 (_event s), repeat (Returned true) (length cs)).
Proof.
  revert s. induction cs as [|[[timeout start_time] sched] cs IH]; intros s Hs.
  - cbn in *. destruct s as [v e]. cbn in Hs. subst v. reflexivity.
  - cbn [acquires length repeat]. cbn [length] in Hs. unfold _acquire.
    rewrite take_positive by lia.
    rewrite IH by (cbn [_value]; lia). reflexivity.
Qed.

(** C7: starting from [ThreadSemaphore(value)] with [value >= 0], after
    any sequence of [_acquire] calls (each with any timeout, any clock
    readings and any behaviour of the other threads during its polling
    loop) and [release] calls, the counter is not negative. *)
Theorem semaphore_value_never_negative (value : Z) (cs : list Call) :
  0 <= value -> 0 <= _value (calls cs (__init__ value)).
Proof.
  intros H. unfold calls.
  assert (Hgen : forall s, 0 <= _value s -> 0 <= _value (fold_left call cs s)).
  { induction cs as [|c cs IH]; intros s Hs; cbn [fold_left]; [assumption|].
    apply IH. destruct c; cbn [call];
      auto using _acquire_nonneg, release_nonneg. }
  apply Hgen. exact H.
Qed.

Lemma semaphore_value_never_negative_witness :
  0 <= _value (calls [CallAcquire None 0%Q []; CallRelease;
                      CallAcquire (Some 1%Q) 0%Q [mkTick [OtherTake] 2%Q]]
                 (__init__ 1)).
Proof. apply (semaphore_value_never_negative 1). lia. Defined.





End SemaphoreFacts.

(** * Properties of the thread manager *)

Section ManagerInvariant.
Import ThreadManager.
Local Open Scope Z_scope.

Lemma wf_init : wf __init__.
Proof.
  split; cbn [__init__ _threads _executor _work].
  - intros id. rewrite lookup_empty, map_size_empty. split.
    + intros [? ?]; discriminate.
    + lia.
  - intros id i. rewrite lookup_empty. discriminate.
  - intros id i. rewrite lookup_empty. discriminate.
  - intros id. rewrite lookup_empty. intros [? ?]; discriminate.
Qed.

(** The next id is not in use, neither as a record nor as a work item. *)
Lemma wf_fresh (th : gmap Z ThreadInfo) (wk : gmap Z Future) :
  wf_maps th wk ->
  th !! Z.of_nat (size th) = None /\ wk !! Z.of_nat (size th) = None.
Proof.
  intros W.
  assert (Hth : th !! Z.of_nat (size th) = None).
  { destruct (th !! Z.of_nat (size th)) eqn:E; [|reflexivity].
    assert (Hs : is_Some (th !! Z.of_nat (size th))) by (rewrite E; eauto).
    apply (wf_dom _ _ W) in Hs. lia. }
  split; [exact Hth|].
  destruct (wk !! Z.of_nat (size th)) eqn:E; [|reflexivity].
  assert (Hs : is_Some (wk !! Z.of_nat (size th))) by (rewrite E; eauto).
  apply (wf_work _ _ W) in Hs. rewrite Hth in Hs. destruct Hs; discriminate.
Qed.

(** Storing the record of a new submission, with or without a work item. *)
Lemma wf_register (th : gmap Z ThreadInfo) (wk : gmap Z Future)
    (f : Callable) (a : list PyVal) (k : list (string * PyVal)) :
  wf_maps th wk ->
  let id := Z.of_nat (size th) in
  let info := mkInfo id IDLE f a k PyNone None in
  wf_maps (<[id := info]> th) wk /\
  wf_maps (<[id := info]> th) (<[id := Queued]> wk).
Proof.
  intros W id info. destruct (wf_fresh _ _ W) as [Hth Hwk]. fold id in Hth, Hwk.
  assert (Hdom : forall j, is_Some (<[id := info]> th !! j) <->
                           0 <= j < Z.of_nat (size (<[id := info]> th))).
  { intros j. rewrite lookup_insert_is_Some', map_size_insert_None by exact Hth.
    rewrite (wf_dom _ _ W). subst id. lia. }
  assert (Hid : forall j i, <[id := info]> th !! j = Some i -> thread_id i = j).
  { intros j i. destruct (decide (id = j)) as [<-|Hne].
    - rewrite lookup_insert_eq. intros [= <-]. reflexivity.
    - rewrite lookup_insert_ne by exact Hne. apply (wf_id _ _ W). }
  split; split; try assumption.
  - intros j i. destruct (decide (id = j)) as [<-|Hne].
    + rewrite lookup_insert_eq, Hwk. intros [= <-]. cbn. auto.
    + rewrite lookup_insert_ne by exact Hne. apply (wf_phase _ _ W).
  - intros j Hj. apply lookup_insert_is_Some'. right. apply (wf_work _ _ W), Hj.
  - intros j i. destruct (decide (id = j)) as [<-|Hne].
    + rewrite !lookup_insert_eq. intros [= <-]. cbn. auto.
    + rewrite !lookup_insert_ne by exact Hne. apply (wf_phase _ _ W).
  - intros j Hj. apply lookup_insert_is_Some'.
    apply lookup_insert_is_Some' in Hj as [Hj|Hj]; [left; exact Hj|].
    right. apply (wf_work _ _ W), Hj.
Qed.

(** A worker moves one work item to its next phase and rewrites the
    record of that item accordingly. *)
Lemma wf_advance (th : gmap Z ThreadInfo) (wk : gmap Z Future)
    (id : Z) (i i' : ThreadInfo) (fut' : Future) :
  wf_maps th wk ->
  th !! id = Some i ->
  thread_id i' = thread_id i ->
  phase_ok i' (Some fut') ->
  wf_maps (<[id := i']> th) (<[id := fut']> wk).
Proof.
  intros W Hi Htid Hph.
  assert (Hsome : is_Some (th !! id)) by (rewrite Hi; eauto).
  split.
  - intros j. rewrite lookup_insert_is_Some', map_size_insert_Some by exact Hsome.
    rewrite <- (wf_dom _ _ W). split; [|auto].
    intros [<-|Hj]; assumption.
  - intros j x. destruct (decide (id = j)) as [<-|Hne].
    + rewrite lookup_insert_eq. intros [= <-]. rewrite Htid.
      apply (wf_id _ _ W), Hi.
    + rewrite lookup_insert_ne by exact Hne. apply (wf_id _ _ W).
  - intros j x. destruct (decide (id = j)) as [<-|Hne].
    + rewrite !lookup_insert_eq. intros [= <-]. exact Hph.
    + rewrite !lookup_insert_ne by exact Hne. apply (wf_phase _ _ W).
  - intros j Hj. apply lookup_insert_is_Some'.
    apply lookup_insert_is_Some' in Hj as [Hj|Hj]; [left; exact Hj|].
    right. apply (wf_work _ _ W), Hj.
Qed.

Lemma wf_step (m : t) (ev : Event) : wf m -> wf (fst (step m ev)).
Proof.
  intros W. unfold wf in *. destruct ev as [f a k|id|id|id|w]; cbn [step].
  - unfold submit_task. cbn [set_threads _executor _shutdown].
    destruct (wf_register _ _ f a k W) as [W1 W2].
    destruct (_shutdown (_executor m)); cbn; assumption.
  - destruct (_work (_executor m) !! id) as [[| | |]|] eqn:Ewk; try exact W.
    unfold _execute_task_enter.
    destruct (_threads m !! id) as [i|] eqn:Eth; cbn; [|exact W].
    apply (wf_advance _ _ id i); try assumption; [reflexivity|].
    pose proof (wf_phase _ _ W id i Eth) as Hph. rewrite Ewk in Hph.
    cbn in *. tauto.
  - destruct (_work (_executor m) !! id) as [[| | |]|] eqn:Ewk; try exact W.
    unfold _execute_task_call.
    destruct (_threads m !! id) as [i|] eqn:Eth; cbn; [|exact W].
    pose proof (wf_phase _ _ W id i Eth) as Hph. rewrite Ewk in Hph.
    cbn in Hph. destruct Hph as (Hst & Hres & Herr).
    destruct (task i (args i) (kwargs i)) as [v|e] eqn:Ecall; cbn.
    + rewrite <- (insert_id (_threads m) id i Eth) at 1.
      apply (wf_advance _ _ id i); try assumption; [reflexivity|].
      cbn. auto.
    + destruct (is_Exception e) eqn:Eex; cbn.
      * apply (wf_advance _ _ id i); try assumption; [reflexivity|].
        cbn. rewrite Eex. auto.
      * rewrite <- (insert_id (_threads m) id i Eth) at 1.
        apply (wf_advance _ _ id i); try assumption; [reflexivity|].
        cbn. rewrite Eex. auto.
  - destruct (_work (_executor m) !! id) as [[| |r|]|] eqn:Ewk; try exact W.
    unfold _handle_task_completion.
    destruct (_threads m !! id) as [i|] eqn:Eth; cbn; [|exact W].
    pose proof (wf_phase _ _ W id i Eth) as Hph. rewrite Ewk in Hph.
    destruct r as [v|e]; cbn in Hph.
    + destruct Hph as (Hst & Hres & Herr & Hcall). cbn.
      apply (wf_advance _ _ id i); try assumption; [reflexivity|]. cbn. auto.
    + destruct Hph as (Hex & Hres & Hcall).
      destruct (is_Exception e) eqn:Eex; cbn.
      * apply (wf_advance _ _ id i); try assumption; [reflexivity|].
        cbn. rewrite Eex. auto.
      * rewrite <- (insert_id (_threads m) id i Eth) at 1.
        apply (wf_advance _ _ id i); try assumption; [reflexivity|].
        cbn. rewrite Eex. auto.
  - exact W.
Qed.

Lemma wf_run (evs : list Event) (m : t) : wf m -> wf (fst (run evs m)).
Proof.
  revert m. induction evs as [|ev evs IH]; intros m W; cbn [run]; [exact W|].
  pose proof (wf_step m ev W) as W1.
  destruct (step m ev) as [m1 r]. specialize (IH m1 W1).
  destruct (run evs m1) as [m2 rs]. exact IH.
Qed.

Lemma run_app (evs1 evs2 : list Event) (m : t) :
  run (evs1 ++ evs2) m =
  (fst (run evs2 (fst (run evs1 m))),
   snd (run evs1 m) ++ snd (run evs2 (fst (run evs1 m)))).
Proof.
  revert m. induction evs1 as [|ev evs1 IH]; intros m; cbn [run app fst snd].
  - destruct (run evs2 m); reflexivity.
  - destruct (step m ev) as [m1 r]. rewrite IH.
    destruct (run evs1 m1) as [m2 rs]. reflexivity.
Qed.

(** Once the executor is shut down it stays so. *)
Lemma step_shutdown (m : t) (ev : Event) :
  _shutdown (_executor m) = true ->
  _shutdown (_executor (fst (step m ev))) = true /\
  returned_ids [snd (step m ev)] = [].
Proof.
  intros H. destruct ev as [f a k|id|id|id|w]; cbn [step].
  - unfold submit_task. cbn [set_threads _executor _shutdown]. rewrite H. cbn. auto.
  - destruct (_work (_executor m) !! id) as [[| | |]|]; cbn; auto.
    destruct (_execute_task_enter id m) as [m'|] eqn:E; cbn; auto.
    unfold _execute_task_enter in E.
    destruct (_threads m !! id); cbn in E; inversion E; subst; cbn; auto.
  - destruct (_work (_executor m) !! id) as [[| | |]|]; cbn; auto.
    destruct (_execute_task_call id m) as [[m' r]|] eqn:E; cbn; auto.
    unfold _execute_task_call in E.
    destruct (_threads m !! id) as [i|]; cbn in E; [|discriminate].
    destruct (task i (args i) (kwargs i)) as [v|e];
      [|destruct (is_Exception e)]; inversion E; subst; cbn; auto.
  - destruct (_work (_executor m) !! id) as [[| |r|]|]; cbn; auto.
    destruct (_handle_task_completion id r m) as [[m' [e'|]]|] eqn:E; cbn; auto;
      unfold _handle_task_completion in E;
      (destruct (_threads m !! id) as [i|]; cbn in E; [|discriminate]);
      (destruct r as [v|e]; [|destruct (is_Exception e)]);
      inversion E; subst; cbn; auto.
  - cbn. auto.
Qed.

Lemma run_shutdown (evs : list Event) (m : t) :
  _shutdown (_executor m) = true ->
  _shutdown (_executor (fst (run evs m))) = true /\
  returned_ids (snd (run evs m)) = [].
Proof.
  revert m. induction evs as [|ev evs IH]; intros m H; cbn [run]; [auto|].
  destruct (step_shutdown m ev H) as [H1 H2].
  destruct (step m ev) as [m1 r]. cbn [fst snd] in *.
  destruct (IH m1 H1) as [H3 H4].
  destruct (run evs m1) as [m2 rs]. cbn [fst snd] in *. split; [exact H3|].
  destruct r; cbn in *; congruence.
Qed.

End ManagerInvariant.

Section ManagerSteps.
Import ThreadManager.
Local Open Scope Z_scope.

Lemma step_enter (m : t) (id : Z) (i : ThreadInfo) :
  _threads m !! id = Some i ->
  _work (_executor m) !! id = Some Queued ->
  step m (WorkerEnter id) =
    (set_work id Executing
       (set_threads (<[id := set_state RUNNING i]> (_threads m)) m), Done).
Proof.
  intros Hth Hwk. cbn [step]. rewrite Hwk.
  unfold _execute_task_enter. rewrite Hth. reflexivity.
Qed.

Lemma step_call_return (m : t) (id : Z) (i : ThreadInfo) (v : PyVal) :
  _threads m !! id = Some i ->
  _work (_executor m) !! id = Some Executing ->
  call_of i = Return v ->
  step m (WorkerCall id) = (set_work id (Finished (FResult v)) m, Done).
Proof.
  intros Hth Hwk Hcall. cbn [step]. rewrite Hwk.
  unfold _execute_task_call. rewrite Hth. cbn.
  unfold call_of in Hcall. rewrite Hcall. reflexivity.
Qed.

Lemma step_call_raise (m : t) (id : Z) (i : ThreadInfo) (e : Exn) :
  _threads m !! id = Some i ->
  _work (_executor m) !! id = Some Executing ->
  call_of i = Raise e ->
  is_Exception e = true ->
  step m (WorkerCall id) =
    (set_work id (Finished (FException e))
       (set_threads (<[id := set_state ERROR (set_error e i)]> (_threads m)) m),
     Done).
Proof.
  intros Hth Hwk Hcall Hex. cbn [step]. rewrite Hwk.
  unfold _execute_task_call. rewrite Hth. cbn.
  unfold call_of in Hcall. rewrite Hcall, Hex. reflexivity.
Qed.

Lemma step_call_escape (m : t) (id : Z) (i : ThreadInfo) (e : Exn) :
  _threads m !! id = Some i ->
  _work (_executor m) !! id = Some Executing ->
  call_of i = Raise e ->
  is_Exception e = false ->
  step m (WorkerCall id) = (set_work id (Finished (FException e)) m, Done).
Proof.
  intros Hth Hwk Hcall Hex. cbn [step]. rewrite Hwk.
  unfold _execute_task_call. rewrite Hth. cbn.
  unfold call_of in Hcall. rewrite Hcall, Hex. reflexivity.
Qed.

Lemma step_callback (m : t) (id : Z) (i : ThreadInfo) (r : FutureResult) :
  _threads m !! id = Some i ->
  _work (_executor m) !! id = Some (Finished r) ->
  (forall e, r = FException e -> is_Exception e = true) ->
  step m (WorkerCallback id) =
    (set_work id (Notified r)
       (set_threads
          (<[id := match r with
                   | FResult v => set_state TERMINATED (set_result v i)
                   | FException e => set_state ERROR (set_error e i)
                   end]> (_threads m)) m), Done).
Proof.
  intros Hth Hwk Hex. cbn [step]. rewrite Hwk.
  unfold _handle_task_completion. rewrite Hth. destruct r as [v|e];
    [reflexivity|]. cbn. rewrite (Hex e eq_refl). reflexivity.
Qed.

Lemma step_callback_escape (m : t) (id : Z) (i : ThreadInfo) (e : Exn) :
  _threads m !! id = Some i ->
  _work (_executor m) !! id = Some (Finished (FException e)) ->
  is_Exception e = false ->
  step m (WorkerCallback id) =
    (set_work id (Notified (FException e)) m, WorkerDied e).
Proof.
  intros Hth Hwk Hex. cbn [step]. rewrite Hwk.
  unfold _handle_task_completion. rewrite Hth. cbn. rewrite Hex. reflexivity.
Qed.

Lemma caught_result (v : PyVal) :
  forall e, FResult v = FException e -> is_Exception e = true.
Proof. discriminate. Qed.

Lemma caught_exception (e : Exn) :
  is_Exception e = true ->
  forall e', FException e = FException e' -> is_Exception e' = true.
Proof. intros H e' [= <-]. exact H. Qed.

(** What one step does to the number of records, to the executor's flag
    and to the list of returned ids, while the executor is open. *)
Lemma step_open (m : t) (ev : Event) :
  wf m ->
  _shutdown (_executor m) = false ->
  match ev with
  | Submit _ _ _ =>
      snd (step m ev) = SubmitReturned (Z.of_nat (size (_threads m))) /\
      size (_threads (fst (step m ev))) = S (size (_threads m)) /\
      _shutdown (_executor (fst (step m ev))) = false
  | Shutdown _ =>
      returned_ids [snd (step m ev)] = [] /\
      _shutdown (_executor (fst (step m ev))) = true
  | _ =>
      returned_ids [snd (step m ev)] = [] /\
      size (_threads (fst (step m ev))) = size (_threads m) /\
      _shutdown (_executor (fst (step m ev))) = false
  end.
Proof.
  intros W Hopen. destruct ev as [f a k|id|id|id|w].
  - cbn [step]. unfold submit_task. cbn [set_threads _executor _shutdown].
    rewrite Hopen. cbn.
    rewrite map_size_insert_None by apply (wf_fresh _ _ W). auto.
  - destruct (_work (_executor m) !! id) as [[| |r|r]|] eqn:Ewk;
      try solve [cbn [step]; rewrite Ewk; cbn; auto].
    destruct (_threads m !! id) as [i|] eqn:Eth.
    + rewrite (step_enter m id i Eth Ewk). cbn.
      rewrite map_size_insert_Some by (rewrite Eth; eauto). auto.
    + cbn [step]. rewrite Ewk. unfold _execute_task_enter. rewrite Eth. cbn. auto.
  - destruct (_work (_executor m) !! id) as [[| |r|r]|] eqn:Ewk;
      try solve [cbn [step]; rewrite Ewk; cbn; auto].
    destruct (_threads m !! id) as [i|] eqn:Eth.
    + destruct (call_of i) as [v|e] eqn:Ecall.
      * rewrite (step_call_return m id i v Eth Ewk Ecall). cbn. auto.
      * destruct (is_Exception e) eqn:Eex.
        -- rewrite (step_call_raise m id i e Eth Ewk Ecall Eex). cbn.
           rewrite map_size_insert_Some by (rewrite Eth; eauto). auto.
        -- rewrite (step_call_escape m id i e Eth Ewk Ecall Eex). cbn. auto.
    + cbn [step]. rewrite Ewk. unfold _execute_task_call. rewrite Eth. cbn. auto.
  - destruct (_work (_executor m) !! id) as [[| |r|r]|] eqn:Ewk;
      try solve [cbn [step]; rewrite Ewk; cbn; auto].
    destruct (_threads m !! id) as [i|] eqn:Eth.
    + destruct r as [v|e]; [|destruct (is_Exception e) eqn:Eex].
      * rewrite (step_callback m id i _ Eth Ewk (caught_result v)). cbn.
        rewrite map_size_insert_Some by (rewrite Eth; eauto). auto.
      * rewrite (step_callback m id i _ Eth Ewk (caught_exception e Eex)). cbn.
        rewrite map_size_insert_Some by (rewrite Eth; eauto). auto.
      * rewrite (step_callback_escape m id i e Eth Ewk Eex). cbn. auto.
    + cbn [step]. rewrite Ewk. unfold _handle_task_completion. rewrite Eth.
      cbn. auto.
  - cbn. auto.
Qed.

Lemma run_returned_ids (evs : list Event) (m : t) :
  wf m ->
  _shutdown (_executor m) = false ->
  returned_ids (snd (run evs m)) =
    map Z.of_nat (seq (size (_threads m))
                      (length (returned_ids (snd (run evs m))))) /\
  (no_shutdown evs = true ->
   length (returned_ids (snd (run evs m))) = count_submits evs).
Proof.
  revert m. induction evs as [|ev evs IH]; intros m W Hopen.
  - cbn. auto.
  - cbn [run no_shutdown forallb count_submits].
    pose proof (wf_step m ev W) as W1.
    pose proof (step_open m ev W Hopen) as Hstep.
    destruct (step m ev) as [m1 r]. cbn [fst snd] in *.
    pose proof (IH m1 W1) as IH1.
    pose proof (run_shutdown evs m1) as Hshut.
    destruct (run evs m1) as [m2 rs]. cbn [fst snd] in *.
    destruct ev as [f a k|id|id|id|w]; cbn [is_shutdown is_submit negb andb].
    + destruct Hstep as (-> & Hsize & Hopen1).
      destruct (IH1 Hopen1) as [Hids Hlen]. cbn [returned_ids length seq map].
      rewrite Hsize in Hids. split; [f_equal; exact Hids|].
      intros Hno. rewrite (Hlen Hno). reflexivity.
    + destruct Hstep as (Hr & Hsize & Hopen1).
      destruct (IH1 Hopen1) as [Hids Hlen]. rewrite Hsize in Hids.
      destruct r; cbn in Hr; try discriminate; cbn [returned_ids]; auto.
    + destruct Hstep as (Hr & Hsize & Hopen1).
      destruct (IH1 Hopen1) as [Hids Hlen]. rewrite Hsize in Hids.
      destruct r; cbn in Hr; try discriminate; cbn [returned_ids]; auto.
    + destruct Hstep as (Hr & Hsize & Hopen1).
      destruct (IH1 Hopen1) as [Hids Hlen]. rewrite Hsize in Hids.
      destruct r; cbn in Hr; try discriminate; cbn [returned_ids]; auto.
    + destruct Hstep as (Hr & Hclosed). destruct (Hshut Hclosed) as [_ Hnil].
      split; [|discriminate].
      destruct r; cbn in Hr; try discriminate; cbn [returned_ids];
        rewrite Hnil; reflexivity.
Qed.

(** Every submission stores a record, accepted by the executor or not. *)
Lemma run_size (evs : list Event) (m : t) :
  wf m ->
  size (_threads (fst (run evs m))) = (size (_threads m) + count_submits evs)%nat.
Proof.
  revert m. induction evs as [|ev evs IH]; intros m W.
  - cbn. lia.
  - cbn [run count_submits]. pose proof (wf_step m ev W) as W1.
    assert (Hsz : size (_threads (fst (step m ev))) =
                  (size (_threads m) + (if is_submit ev then 1 else 0))%nat).
    { destruct (_shutdown (_executor m)) eqn:Hs.
      - destruct ev as [f a k|id|id|id|w]; cbn [is_submit].
        + cbn [step]. unfold submit_task. cbn [set_threads _executor _shutdown].
          rewrite Hs. cbn. rewrite map_size_insert_None by apply (wf_fresh _ _ W).
          lia.
        + cbn [step]. destruct (_work (_executor m) !! id) as [[| |r|r]|];
            cbn; try lia.
          unfold _execute_task_enter.
          destruct (_threads m !! id) as [i|] eqn:Eth; cbn; [|lia].
          rewrite map_size_insert_Some by (rewrite Eth; eauto). lia.
        + cbn [step]. destruct (_work (_executor m) !! id) as [[| |r|r]|];
            cbn; try lia.
          unfold _execute_task_call.
          destruct (_threads m !! id) as [i|] eqn:Eth; cbn; [|lia].
          destruct (task i (args i) (kwargs i)) as [v|e]; cbn; [lia|].
          destruct (is_Exception e); cbn; [|lia].
          rewrite map_size_insert_Some by (rewrite Eth; eauto). lia.
        + cbn [step]. destruct (_work (_executor m) !! id) as [[| |r|r]|];
            cbn; try lia.
          unfold _handle_task_completion.
          destruct (_threads m !! id) as [i|] eqn:Eth; cbn; [|lia].
          destruct r as [v|e]; [|destruct (is_Exception e)]; cbn;
            try (rewrite map_size_insert_Some by (rewrite Eth; eauto)); lia.
        + cbn. lia.
      - pose proof (step_open m ev W Hs) as Hstep.
        destruct ev as [f a k|id|id|id|w]; cbn [is_submit];
          try (destruct Hstep as (_ & -> & _); lia).
        cbn. lia. }
    destruct (step m ev) as [m1 r]. cbn [fst] in *.
    specialize (IH m1 W1). destruct (run evs m1) as [m2 rs]. cbn [fst] in *.
    rewrite IH, Hsz. lia.
Qed.

End ManagerSteps.

Section ManagerFacts.
Import ThreadManager.
Local Open Scope Z_scope.



(** C3, evaluated on the code: in any run in which [shutdown] has been
    called, a later [submit_task] raises the executor's [RuntimeError],
    but only after it has stored a new IDLE record under the next id:
    the registry is one record larger than before the call. *)
Theorem submit_after_shutdown_registers (evs1 evs2 : list Event) (w : bool)
    (f : Callable) (a : list PyVal) (k : list (string * PyVal)) :
  let m := fst (run (evs1 ++ Shutdown w :: evs2) __init__) in
  let id := Z.of_nat (size (_threads m)) in
  snd (submit_task f a k m) = inl RuntimeError /\
  _threads m !! id = None /\
  _threads (fst (submit_task f a k m)) !! id =
    Some (mkInfo id IDLE f a k PyNone None) /\
  size (_threads (fst (submit_task f a k m))) = S (size (_threads m)).
Proof.
  cbv zeta. rewrite run_app. cbn [fst].
  set (m0 := fst (run evs1 __init__)).
  assert (W0 : wf m0) by apply wf_run, wf_init.
  cbn [run step].
  destruct (run evs2 (shutdown w m0)) as [m rs] eqn:Erun. cbn [fst].
  assert (Hm : m = fst (run evs2 (shutdown w m0))) by (rewrite Erun; reflexivity).
  assert (W : wf m) by (rewrite Hm; apply wf_run; exact W0).
  assert (Hclosed : _shutdown (_executor m) = true).
  { rewrite Hm. apply run_shutdown. reflexivity. }
  destruct (wf_fresh _ _ W) as [Hfresh _].
  unfold submit_task. cbn [set_threads _executor _shutdown]. rewrite Hclosed.
  unfold set_threads. cbn [fst snd _threads]. rewrite lookup_insert_eq.
  rewrite map_size_insert_None by exact Hfresh. auto.
Qed.

(** C8 as amended: in every state a fresh manager can reach, a
    TERMINATED record holds in [result] the value its task returned and
    has no error, and an ERROR record holds the exception its task raised
    and has no result; so exactly one of the two fields is set, unless
    the task returned [None]. *)
Theorem record_after_running (evs : list Event) (id : Z) (i : ThreadInfo) :
  _threads (fst (run evs __init__)) !! id = Some i ->
  (state i = TERMINATED ->
   error i = None /\ call_of i = Return (result i)) /\
  (state i = ERROR ->
   result i = PyNone /\ exists e, error i = Some e /\ call_of i = Raise e) /\
  (state i = TERMINATED \/ state i = ERROR ->
   call_of i <> Return PyNone -> exactly_one_populated i = true).
Proof.
  intros Hi.
  pose proof (wf_phase _ _ (wf_run evs __init__ wf_init) id i Hi) as Hph.
  assert (Hsum :
    (state i = TERMINATED /\ error i = None /\ call_of i = Return (result i)) \/
    (state i = ERROR /\ result i = PyNone /\
     exists e, error i = Some e /\ call_of i = Raise e) \/
    (state i = IDLE \/ state i = RUNNING)).
  { destruct (_work (_executor (fst (run evs __init__))) !! id)
      as [[| |[v|e]|[v|e]]|]; cbn in Hph.
    - right; right; left; tauto.
    - right; right; right; tauto.
    - right; right; right; tauto.
    - destruct Hph as (Hex & ? & ?). destruct (is_Exception e).
      + right; left. destruct Hex. eauto.
      + right; right; right; tauto.
    - left. destruct Hph as (? & <- & ? & ?). auto.
    - destruct Hph as (Hex & ? & ?). destruct (is_Exception e).
      + right; left. destruct Hex. eauto.
      + right; right; right; tauto.
    - right; right; left; tauto. }
  unfold exactly_one_populated, result_populated, error_populated.
  destruct Hsum as [(Hst & Herr & Hcall)|[(Hst & Hres & e & Herr & Hcall)|Hst]].
  - split; [auto|]. split; [intros; congruence|].
    intros _ Hnone. rewrite Herr.
    destruct (result i); [congruence | reflexivity | reflexivity].
  - split; [intros; congruence|]. split; [eauto|].
    intros _ _. rewrite Hres, Herr. reflexivity.
  - split; [|split].
    + intros H. destruct Hst; congruence.
    + intros H. destruct Hst; congruence.
    + intros [H|H]; destruct Hst; congruence.
Qed.

Lemma record_after_running_witness :
  exactly_one_populated
    (mkInfo 0 TERMINATED (fun _ _ => Return (PyInt 7)) [] [] (PyInt 7) None) = true.
Proof.
  refine (proj2 (proj2 (record_after_running
            [Submit (fun _ _ => Return (PyInt 7)) [] [];
             WorkerEnter 0; WorkerCall 0; WorkerCallback 0] 0
            (mkInfo 0 TERMINATED (fun _ _ => Return (PyInt 7)) [] [] (PyInt 7) None)
            _)) _ _).
  - reflexivity.
  - left; reflexivity.
  - discriminate.
Defined.

(** C8 as stated fails: a task that returns [None] leaves a TERMINATED
    record in which neither [result] nor [error] is set. *)
Lemma terminated_record_may_hold_nothing :
  ~ (forall (evs : list Event) (id : Z) (i : ThreadInfo),
       _threads (fst (run evs __init__)) !! id = Some i ->
       state i = TERMINATED \/ state i = ERROR ->
       exactly_one_populated i = true).
Proof.
  intros H.
  specialize (H [Submit (fun _ _ => Return PyNone) [] [];
                 WorkerEnter 0; WorkerCall 0; WorkerCallback 0] 0
                (mkInfo 0 TERMINATED (fun _ _ => Return PyNone) [] [] PyNone None)
                eq_refl (or_introl eq_refl)).
  discriminate H.
Qed.

End ManagerFacts.

Section ManagerWaiting.
Import ThreadManager.
Local Open Scope Z_scope.

Lemma _wait_loop_not_running (m : t) (id : Z) (i : ThreadInfo)
    (timeout : option Q) (start_time : Q) (sched : list Tick) :
  _threads m !! id = Some i ->
  state i <> RUNNING ->
  _wait_loop id timeout start_time sched m = (m, inr (Returned true)).
Proof.
  intros Hi Hst.
  assert (Hrun : is_running id m = Some false).
  { unfold is_running. rewrite Hi. cbn. destruct (state i); cbn; congruence. }
  destruct sched; cbn [_wait_loop]; rewrite Hrun; reflexivity.
Qed.

Lemma wait_for_thread_not_running (m : t) (id : Z) (i : ThreadInfo)
    (timeout : option Q) (start_time : Q) (sched : list Tick) :
  _threads m !! id = Some i ->
  state i <> RUNNING ->
  wait_for_thread id timeout start_time sched m = (m, inr (Returned true)).
Proof.
  intros Hi Hst. unfold wait_for_thread. rewrite Hi.
  exact (_wait_loop_not_running m id i timeout start_time sched Hi Hst).
Qed.

(** While the record stays RUNNING and the timeout test fails, the
    caller keeps polling. *)
Lemma _wait_loop_running (m : t) (id : Z) (i : ThreadInfo)
    (timeout : option Q) (start_time : Q) (sched : list Tick) :
  _threads m !! id = Some i ->
  state i = RUNNING ->
  Forall (fun tk => during_sleep tk = [] /\
                    Clock.expired timeout start_time (now tk) = false) sched ->
  _wait_loop id timeout start_time sched m = (m, inr Blocked).
Proof.
  intros Hi Hst Hq.
  assert (Hrun : is_running id m = Some true).
  { unfold is_running. rewrite Hi. cbn. rewrite Hst. reflexivity. }
  induction Hq as [|tk rest [Hsleep Hex] _ IH]; cbn [_wait_loop]; rewrite Hrun.
  - reflexivity.
  - rewrite Hex, Hsleep. exact IH.
Qed.

(** A zero timeout makes the loop of [wait_for_thread] the loop it is
    without a timeout. *)
Lemma _wait_loop_zero (id : Z) (start_time : Q) (sched : list Tick) (m : t) :
  _wait_loop id (Some 0%Q) start_time sched m =
  _wait_loop id None start_time sched m.
Proof.
  revert m. induction sched as [|tk rest IH]; intros m; cbn [_wait_loop].
  - reflexivity.
  - rewrite expired_zero. cbn [Clock.expired].
    destruct (is_running id m) as [[|]|]; try reflexivity. apply IH.
Qed.

Lemma _wait_loop_none (id : Z) (start_time : Q) (sched : list Tick) (m : t) :
  snd (_wait_loop id None start_time sched m) <> inr (Returned false).
Proof.
  revert m. induction sched as [|tk rest IH]; intros m; cbn [_wait_loop].
  - destruct (is_running id m) as [[|]|]; cbn; discriminate.
  - destruct (is_running id m) as [[|]|]; cbn; try discriminate. apply IH.
Qed.

(** An id without a record: [get_thread_info] returns [None] and
    [wait_for_thread] raises [ValueError], the manager being left as it
    is. *)
Lemma unknown_id_not_found (m : t) (id : Z) (timeout : option Q)
    (start_time : Q) (sched : list Tick) :
  _threads m !! id = None ->
  get_thread_info id m = (m, None) /\
  wait_for_thread id timeout start_time sched m = (m, inl ValueError).
Proof.
  intros Hi. unfold get_thread_info, wait_for_thread. rewrite Hi. auto.
Qed.

(** As long as no submission was refused, the ids without a record are
    those that no [submit_task] call returned. *)
Lemma unreturned_id_not_found (evs : list Event) (id : Z)
    (timeout : option Q) (start_time : Q) (sched : list Tick) :
  no_shutdown evs = true ->
  ~ In id (returned_ids (snd (run evs __init__))) ->
  get_thread_info id (fst (run evs __init__)) = (fst (run evs __init__), None) /\
  wait_for_thread id timeout start_time sched (fst (run evs __init__)) =
    (fst (run evs __init__), inl ValueError).
Proof.
  intros Hno Hnot. apply unknown_id_not_found.
  destruct (_threads (fst (run evs __init__)) !! id) as [i|] eqn:Ei;
    [|reflexivity].
  exfalso. apply Hnot.
  destruct (run_returned_ids evs __init__ wf_init eq_refl) as [Hids Hlen].
  rewrite Hids, (Hlen Hno). cbn [__init__ _threads]. rewrite map_size_empty.
  assert (Hs : is_Some (_threads (fst (run evs __init__)) !! id))
    by (rewrite Ei; eauto).
  apply (wf_dom _ _ (wf_run evs __init__ wf_init)) in Hs.
  rewrite (run_size evs __init__ wf_init) in Hs.
  cbn [__init__ _threads] in Hs. rewrite map_size_empty in Hs.
  replace id with (Z.of_nat (Z.to_nat id)) by lia.
  apply in_map, in_seq. lia.
Qed.

(** C9, evaluated on the code: after [shutdown], a [submit_task] call
    raises and returns no id, yet id 0 now has a record:
    [get_thread_info 0] returns that IDLE record instead of [None], and
    [wait_for_thread 0] returns [True] instead of raising [ValueError]. *)
Theorem refused_submission_is_found (w : bool) (f : Callable)
    (a : list PyVal) (k : list (string * PyVal))
    (timeout : option Q) (start_time : Q) (sched : list Tick) :
  let m := fst (run [Shutdown w; Submit f a k] __init__) in
  snd (run [Shutdown w; Submit f a k] __init__) = [Done; SubmitRaised RuntimeError] /\
  returned_ids (snd (run [Shutdown w; Submit f a k] __init__)) = [] /\
  get_thread_info 0 m = (m, Some (mkInfo 0 IDLE f a k PyNone None)) /\
  wait_for_thread 0 timeout start_time sched m = (m, inr (Returned true)).
Proof.
  cbv zeta. repeat split.
  apply (wait_for_thread_not_running _ 0 (mkInfo 0 IDLE f a k PyNone None));
    [reflexivity | discriminate].
Qed.

(** C6 as amended: when the task of a queued work item raises an
    instance [e] of [Exception], then, from the moment [_execute_task]
    has caught it and again after the done callback, [wait_for_thread]
    returns [True] and [get_thread_info] shows the record in state ERROR
    with [e] as its error; a caller that was already polling leaves with
    [True] at its next poll.  The records and work items of all other
    ids, both flags of the manager and the answer to a later
    [submit_task] are what they were, and no worker is lost. *)
Theorem failing_task_is_recorded (m : t) (id : Z) (i : ThreadInfo) (e : Exn) :
  _threads m !! id = Some i ->
  _work (_executor m) !! id = Some Queued ->
  call_of i = Raise e ->
  is_Exception e = true ->
  let m1 := fst (step m (WorkerEnter id)) in
  let m2 := fst (step m1 (WorkerCall id)) in
  let m3 := fst (step m2 (WorkerCallback id)) in
  (forall timeout start_time,
     wait_for_thread id timeout start_time [] m1 = (m1, inr Blocked)) /\
  (forall timeout start_time clock rest,
     Clock.expired timeout start_time clock = false ->
     wait_for_thread id timeout start_time (mkTick clock [WorkerCall id] :: rest) m1
       = (m2, inr (Returned true))) /\
  (forall m', m' = m2 \/ m' = m3 ->
     (forall timeout start_time sched,
        wait_for_thread id timeout start_time sched m' = (m', inr (Returned true))) /\
     (exists i', get_thread_info id m' = (m', Some i') /\
        state i' = ERROR /\ error i' = Some e /\ result i' = result i) /\
     (forall j, j <> id ->
        _threads m' !! j = _threads m !! j /\
        _work (_executor m') !! j = _work (_executor m) !! j) /\
     _running m' = _running m /\
     _shutdown (_executor m') = _shutdown (_executor m) /\
     (forall f a k, snd (submit_task f a k m') = snd (submit_task f a k m))) /\
  snd (run [WorkerEnter id; WorkerCall id; WorkerCallback id] m) =
    [Done; Done; Done].
Proof.
  intros Hi Hwk Hcall Hexn. cbv zeta. cbn [run].
  rewrite (step_enter m id i Hi Hwk). cbn [fst].
  set (i1 := set_state RUNNING i).
  set (m1 := set_work id Executing (set_threads (<[id:=i1]> (_threads m)) m)).
  assert (Hi1 : _threads m1 !! id = Some i1) by apply lookup_insert_eq.
  assert (Hwk1 : _work (_executor m1) !! id = Some Executing)
    by apply lookup_insert_eq.
  rewrite (step_call_raise m1 id i1 e Hi1 Hwk1 Hcall Hexn). cbn [fst].
  set (i2 := set_state ERROR (set_error e i1)).
  set (m2 := set_work id (Finished (FException e))
               (set_threads (<[id:=i2]> (_threads m1)) m1)).
  assert (Hi2 : _threads m2 !! id = Some i2) by apply lookup_insert_eq.
  assert (Hwk2 : _work (_executor m2) !! id = Some (Finished (FException e)))
    by apply lookup_insert_eq.
  rewrite (step_callback m2 id i2 _ Hi2 Hwk2 (caught_exception e Hexn)).
  cbn [fst snd].
  set (i3 := set_state ERROR (set_error e i2)).
  set (m3 := set_work id (Notified (FException e))
               (set_threads (<[id:=i3]> (_threads m2)) m2)).
  assert (Hi3 : _threads m3 !! id = Some i3) by apply lookup_insert_eq.
  assert (Hsome : is_Some (_threads m !! id)) by (rewrite Hi; eauto).
  assert (Hsize2 : size (_threads m2) = size (_threads m)).
  { cbn. rewrite !map_size_insert_Some; try reflexivity; try assumption.
    apply lookup_insert_is_Some'. auto. }
  assert (Hsize3 : size (_threads m3) = size (_threads m)).
  { rewrite <- Hsize2. cbn -[m2]. apply map_size_insert_Some.
    rewrite Hi2. eauto. }
  split; [|split; [|split]]; [| | |reflexivity].
  - intros timeout start_time. unfold wait_for_thread. rewrite Hi1.
    cbn [_wait_loop]. unfold is_running. rewrite Hi1. reflexivity.
  - intros timeout start_time clock rest Hex. unfold wait_for_thread.
    rewrite Hi1. cbn [_wait_loop now during_sleep]. unfold is_running at 1.
    rewrite Hi1. cbn [mbind option_bind state i1 set_state ThreadState_eqb].
    rewrite Hex. cbn [run].
    rewrite (step_call_raise m1 id i1 e Hi1 Hwk1 Hcall Hexn). cbn [fst].
    apply (_wait_loop_not_running m2 id i2); [exact Hi2 | discriminate].
  - intros m' [->| ->].
    + split; [|split; [|split; [|split; [|split]]]].
      * intros. apply (wait_for_thread_not_running m2 id i2);
          [exact Hi2 | discriminate].
      * exists i2. unfold get_thread_info. rewrite Hi2. auto.
      * intros j Hj. cbn. rewrite !lookup_insert_ne by congruence. auto.
      * reflexivity.
      * reflexivity.
      * intros f a k. unfold submit_task. rewrite Hsize2.
        cbn [set_threads _executor _shutdown m2 m1 set_work].
        destruct (_shutdown (_executor m)); reflexivity.
    + split; [|split; [|split; [|split; [|split]]]].
      * intros. apply (wait_for_thread_not_running m3 id i3);
          [exact Hi3 | discriminate].
      * exists i3. unfold get_thread_info. rewrite Hi3. auto.
      * intros j Hj. cbn. rewrite !lookup_insert_ne by congruence. auto.
      * reflexivity.
      * reflexivity.
      * intros f a k. unfold submit_task. rewrite Hsize3.
        cbn [set_threads _executor _shutdown m3 m2 m1 set_work].
        destruct (_shutdown (_executor m)); reflexivity.
Qed.

Lemma failing_task_is_recorded_witness :
  wait_for_thread 0 (Some 5%Q) 0%Q []
    (fst (run [Submit (fun _ _ => Raise (Exception "boom")) [] [];
               WorkerEnter 0; WorkerCall 0; WorkerCallback 0] __init__)) =
  (fst (run [Submit (fun _ _ => Raise (Exception "boom")) [] [];
             WorkerEnter 0; WorkerCall 0; WorkerCallback 0] __init__),
   inr (Returned true)).
Proof.
  pose proof (failing_task_is_recorded
                (fst (run [Submit (fun _ _ => Raise (Exception "boom")) [] []]
                        __init__))
                0 (mkInfo 0 IDLE (fun _ _ => Raise (Exception "boom")) [] []
                     PyNone None)
                (Exception "boom") eq_refl eq_refl eq_refl eq_refl) as H.
  cbv zeta in H. destruct H as (_ & _ & H & _).
  exact (proj1 (H _ (or_intror eq_refl)) (Some 5%Q) 0%Q []).
Defined.

(** C6 as stated fails: a task that raises [SystemExit], which is not an
    [Exception], passes both [except Exception] handlers.  After the
    worker has run it and its callback, the record is still RUNNING with
    no error, and [wait_for_thread] does not return [True]. *)
Lemma escaping_exception_is_not_recorded :
  ~ (forall (m : t) (id : Z) (i : ThreadInfo) (e : Exn),
       _threads m !! id = Some i ->
       _work (_executor m) !! id = Some Queued ->
       call_of i = Raise e ->
       wait_for_thread id None 0%Q []
         (fst (run [WorkerEnter id; WorkerCall id; WorkerCallback id] m)) =
         (fst (run [WorkerEnter id; WorkerCall id; WorkerCallback id] m),
          inr (Returned true)) /\
       exists i',
         get_thread_info id
           (fst (run [WorkerEnter id; WorkerCall id; WorkerCallback id] m)) =
           (fst (run [WorkerEnter id; WorkerCall id; WorkerCallback id] m),
            Some i') /\
         state i' = ERROR /\ error i' = Some e).
Proof.
  intros H.
  destruct (H (fst (run [Submit (fun _ _ => Raise (SystemExit 1)) [] []] __init__))
              0 (mkInfo 0 IDLE (fun _ _ => Raise (SystemExit 1)) [] [] PyNone None)
              (SystemExit 1) eq_refl eq_refl eq_refl) as [Hwait _].
  discriminate Hwait.
Qed.

End ManagerWaiting.

Section ZeroTimeout.
Local Open Scope Z_scope.

Lemma _acquire_loop_zero (start_time : Q) (sched : list ThreadSemaphore.Tick)
    (s : ThreadSemaphore.t) :
  ThreadSemaphore._acquire_loop (Some 0%Q) start_time sched s =
  ThreadSemaphore._acquire_loop None start_time sched s.
Proof.
  revert s. induction sched as [|tk rest IH]; intros s;
    cbn [ThreadSemaphore._acquire_loop]; [reflexivity|].
  rewrite expired_zero. cbn [Clock.expired].
  destruct (ThreadSemaphore.take _) as [s2 [|]]; [reflexivity | apply IH].
Qed.

Lemma _acquire_zero (start_time : Q) (sched : list ThreadSemaphore.Tick)
    (s : ThreadSemaphore.t) :
  ThreadSemaphore._acquire (Some 0%Q) start_time sched s =
  ThreadSemaphore._acquire None start_time sched s.
Proof.
  unfold ThreadSemaphore._acquire.
  destruct (ThreadSemaphore.take s) as [s1 [|]];
    [reflexivity | apply _acquire_loop_zero].
Qed.

Lemma _acquire_none (start_time : Q) (sched : list ThreadSemaphore.Tick)
    (s : ThreadSemaphore.t) :
  snd (ThreadSemaphore._acquire None start_time sched s) <> Returned false.
Proof.
  unfold ThreadSemaphore._acquire.
  destruct (ThreadSemaphore.take s) as [s1 [|]]; [discriminate|].
  destruct (ThreadSemaphore._acquire_loop None start_time sched s1)
    as [s2 o] eqn:E.
  cbn [snd]. intros ->.
  destruct (_acquire_loop_false _ _ _ _ _ E) as (tk & _ & Hex). discriminate Hex.
Qed.

(** With a timeout that is not zero the same loops do give up. *)
Lemma positive_timeout_expires :
  ThreadSemaphore._acquire (Some 1%Q) 0%Q [ThreadSemaphore.mkTick [] 2%Q]
    (ThreadSemaphore.__init__ 0) =
    (ThreadSemaphore.__init__ 0, Returned false) /\
  snd (ThreadManager.wait_for_thread 0 (Some 1%Q) 0%Q [ThreadManager.mkTick 2%Q []]
         (fst (ThreadManager.run
                 [ThreadManager.Submit (fun _ _ => ThreadManager.Return ThreadManager.PyNone) [] [];
                  ThreadManager.WorkerEnter 0]
                 ThreadManager.__init__))) = inr (Returned false).
Proof. split; reflexivity. Qed.

(** C10: with [timeout = 0] the timeout test of [_acquire] and of
    [wait_for_thread] is never true.  Each call behaves as the call
    without a timeout, never returns [False] (nor raises [TimeoutError]
    from the context manager), and stays blocked however long the
    schedule and whatever the clock shows, as long as the semaphore gets
    no permit, respectively the record stays RUNNING. *)
Theorem zero_timeout_is_no_timeout :
  (forall start_time sched s,
     ThreadSemaphore._acquire (Some 0%Q) start_time sched s =
       ThreadSemaphore._acquire None start_time sched s /\
     snd (ThreadSemaphore._acquire (Some 0%Q) start_time sched s) <> Returned false /\
     snd (ThreadSemaphore.acquire (Some 0%Q) start_time sched s) <> inl TimeoutError) /\
  (forall start_time sched s,
     ThreadSemaphore._value s <= 0 ->
     ThreadSemaphore.no_release sched ->
     ThreadSemaphore._acquire (Some 0%Q) start_time sched s = (s, Blocked)) /\
  (forall id start_time sched m,
     ThreadManager.wait_for_thread id (Some 0%Q) start_time sched m =
       ThreadManager.wait_for_thread id None start_time sched m /\
     snd (ThreadManager.wait_for_thread id (Some 0%Q) start_time sched m)
       <> inr (Returned false)) /\
  (forall id i start_time sched m,
     ThreadManager._threads m !! id = Some i ->
     ThreadManager.state i = ThreadManager.RUNNING ->
     Forall (fun tk => ThreadManager.during_sleep tk = []) sched ->
     ThreadManager.wait_for_thread id (Some 0%Q) start_time sched m =
       (m, inr Blocked)).
Proof.
  split; [|split; [|split]].
  - intros start_time sched s.
    assert (Hne : snd (ThreadSemaphore._acquire (Some 0%Q) start_time sched s)
                  <> Returned false).
    { rewrite _acquire_zero. apply _acquire_none. }
    split; [apply _acquire_zero|]. split; [exact Hne|].
    unfold ThreadSemaphore.acquire.
    destruct (ThreadSemaphore._acquire (Some 0%Q) start_time sched s)
      as [s' [[|]|]]; cbn [snd] in *; congruence.
  - intros start_time sched s Hs Hq.
    pose proof (_acquire_none start_time sched s) as Hne.
    rewrite _acquire_zero. revert Hne. unfold ThreadSemaphore._acquire.
    rewrite take_empty by exact Hs.
    destruct (_acquire_loop_no_release None start_time sched s Hs Hq) as [->| ->];
      cbn [snd]; congruence.
  - intros id start_time sched m. unfold ThreadManager.wait_for_thread.
    destruct (ThreadManager._threads m !! id); cbn [snd]; [|split; [auto|discriminate]].
    rewrite _wait_loop_zero. split; [reflexivity | apply _wait_loop_none].
  - intros id i start_time sched m Hi Hst Hq.
    unfold ThreadManager.wait_for_thread. rewrite Hi.
    apply (_wait_loop_running m id i); try assumption.
    induction Hq as [|tk rest Htk _ IH]; constructor; auto.
Qed.

Lemma zero_timeout_is_no_timeout_witness :
  ThreadSemaphore._acquire (Some 0%Q) 0%Q
    [ThreadSemaphore.mkTick [] 100%Q;
     ThreadSemaphore.mkTick [ThreadSemaphore.OtherTake] 200%Q]
    (ThreadSemaphore.__init__ 0) =
  (ThreadSemaphore.__init__ 0, Blocked).
Proof.
  apply (proj1 (proj2 zero_timeout_is_no_timeout)).
  - cbn. lia.
  - repeat constructor.
Defined.

End ZeroTimeout.

(** * Further properties of the synchronisation primitives *)

Section BarrierRounds.
Import ThreadBarrier.
Local Open Scope Z_scope.

(** Once the event is up, every [wait] returns [True] at once, whether
    it closes a round or not. *)
Lemma waits_event_up (n : nat) (b : t) :
  _event b = true ->
  snd (waits n b) = repeat (Returned true) n /\
  _event (fst (waits n b)) = true.
Proof.
  revert b. induction n as [|n IH]; intros b Hb; cbn [waits]; [auto|].
  unfold wait. destruct (_count b - 1 =? 0).
  - specialize (IH (mk (_parties b) (_parties b) (Event.set (_event b))) eq_refl).
    destruct (waits n _) as [b2 os]. cbn [fst snd repeat] in *.
    destruct IH as [-> ->]. auto.
  - cbn [_event]. rewrite Hb. cbn [Event.wait].
    specialize (IH (mk (_parties b) (_count b - 1) true) eq_refl).
    destruct (waits n _) as [b2 os]. cbn [fst snd repeat] in *.
    destruct IH as [-> ->]. auto.
Qed.

Lemma waits_rounds (flag : bool) (p r : nat) :
  fst (waits (r * S p) (mk (Z.of_nat (S p)) (Z.of_nat (S p)) flag)) =
  mk (Z.of_nat (S p)) (Z.of_nat (S p)) (flag || negb (r =? 0)%nat).
Proof.
  revert flag. induction r as [|r IH]; intros flag.
  - cbn. rewrite orb_false_r. reflexivity.
  - replace (S r * S p)%nat with (S p + r * S p)%nat by lia.
    rewrite waits_app, waits_round. cbn [fst]. rewrite IH.
    cbn. rewrite orb_true_r. reflexivity.
Qed.

Lemma waits_no_parties (parties : Z) (k : nat) (c : Z) :
  c <= 0 ->
  waits k (mk parties c false) =
  (mk parties (c - Z.of_nat k) false, repeat Blocked k).
Proof.
  revert c. induction k as [|k IH]; intros c Hc.
  - simpl. f_equal. f_equal. lia.
  - cbn [waits]. unfold wait. cbn [_count _parties _event].
    destruct (Z.eqb_spec (c - 1) 0) as [E|_]; [lia|].
    rewrite IH by lia. cbn [repeat Event.wait]. f_equal. f_equal. lia.
Qed.

(** X1: on a barrier of [P = p + 1] parties, of all the calls ever made
    only the first [P - 1] block; the [P]-th and every later call return
    [True] at once. *)
Theorem barrier_blocks_only_before_first_release (p n : nat) :
  snd (waits (S p + n) (__init__ (Z.of_nat (S p)))) =
  repeat Blocked p ++ repeat (Returned true) (S n).
Proof.
  rewrite waits_app. cbn [snd]. unfold __init__. rewrite waits_round.
  cbn [fst snd Event.wait].
  rewrite (proj1 (waits_event_up n
             (mk (Z.of_nat (S p)) (Z.of_nat (S p)) true) eq_refl)).
  rewrite <- app_assoc. reflexivity.
Qed.

(** X2: after any number [n] of calls on a barrier of [P = p + 1]
    parties the count is [P - n mod P], hence between 1 and [P], and the
    event is up exactly when at least [P] calls have been made. *)
Theorem barrier_state_after_calls (p n : nat) :
  fst (waits n (__init__ (Z.of_nat (S p)))) =
  mk (Z.of_nat (S p)) (Z.of_nat (S p) - Z.of_nat (n mod S p))
     (S p <=? n)%nat /\
  1 <= _count (fst (waits n (__init__ (Z.of_nat (S p))))) <= Z.of_nat (S p).
Proof.
  assert (Hmod : (n mod S p < S p)%nat) by (apply Nat.mod_upper_bound; lia).
  assert (Hst : fst (waits n (__init__ (Z.of_nat (S p)))) =
                mk (Z.of_nat (S p)) (Z.of_nat (S p) - Z.of_nat (n mod S p))
                   (S p <=? n)%nat).
  { rewrite (Nat.div_mod_eq n (S p)) at 1.
    replace (S p * (n / S p))%nat with (n / S p * S p)%nat by lia.
    rewrite waits_app. cbn [fst]. unfold __init__. rewrite waits_rounds.
    rewrite waits_partial by lia. cbn [fst orb]. f_equal.
    destruct (Nat.leb_spec (S p) n) as [Hle|Hlt].
    - destruct (Nat.eqb_spec (n / S p) 0) as [E|_]; [|reflexivity].
      apply Nat.div_small_iff in E; lia.
    - rewrite (Nat.div_small n (S p)) by lia. reflexivity. }
  split; [exact Hst|]. rewrite Hst. cbn [_count]. lia.
Qed.

(** X3: a barrier built with [parties <= 0] never releases anybody: the
    count only moves further below zero, the event stays down and every
    call blocks. *)
Theorem barrier_without_parties_never_releases (parties : Z) (n : nat) :
  parties <= 0 ->
  waits n (__init__ parties) =
  (mk parties (parties - Z.of_nat n) false, repeat Blocked n).
Proof. intros H. unfold __init__. apply waits_no_parties, H. Qed.

Lemma barrier_without_parties_never_releases_witness :
  waits 3 (__init__ 0) = (mk 0 (-3) false, [Blocked; Blocked; Blocked]).
Proof. apply (barrier_without_parties_never_releases 0 3). lia. Defined.

End BarrierRounds.

Section LatchState.
Import ThreadCountDownLatch.
Local Open Scope Z_scope.

Lemma count_down_open (l : t) :
  (_event l = true -> _count l = 0) ->
  (_event (count_down l) = true -> _count (count_down l) = 0) /\
  (_event l = true -> count_down l = l) /\
  _count (count_down l) <= _count l.
Proof.
  intros Inv. unfold count_down.
  destruct (Z.ltb_spec 0 (_count l)) as [Hpos|Hle]; cbn [_count _event].
  - destruct (Z.eqb_spec (_count l - 1) 0) as [E|E].
    + repeat split; try lia. intros H. specialize (Inv H). lia.
    + repeat split; try lia.
      * intros H. specialize (Inv H). lia.
      * intros H. specialize (Inv H). lia.
  - repeat split; auto. lia.
Qed.

Lemma count_downs_open (c : Z) (n : nat) :
  _event (count_downs n (__init__ c)) = true ->
  _count (count_downs n (__init__ c)) = 0.
Proof.
  induction n as [|n IH]; [discriminate|].
  rewrite count_downs_S. apply count_down_open, IH.
Qed.

(** X4: after [n] calls of [count_down] on a latch built with a count
    [K >= 0], the count is [max (K - n) 0] and the event is up exactly
    when [K >= 1] and [n >= K]. *)
Theorem latch_state_after_calls (K n : nat) :
  count_downs n (__init__ (Z.of_nat K)) =
  mk (Z.of_nat (K - n)) ((1 <=? K)%nat && (K <=? n)%nat).
Proof.
  destruct (Nat.ltb_spec n K) as [Hlt|Hge].
  - unfold __init__. rewrite count_downs_partial by lia.
    destruct (Nat.leb_spec 1 K); [|lia]. destruct (Nat.leb_spec K n); [lia|].
    cbn. f_equal. lia.
  - destruct K as [|K].
    + unfold __init__. rewrite count_downs_at_zero by (cbn; lia). reflexivity.
    + replace n with ((n - S K) + S K)%nat at 1 by lia.
      rewrite (proj2 (proj2 (proj2 (latch_positive_count (S K) (n - S K)
                                      ltac:(lia))))).
      destruct (Nat.leb_spec (S K) n); [|lia].
      replace (S K - n)%nat with O by lia. reflexivity.
Qed.

(** X5: for a latch built with any count, positive or not: the count
    never increases; the event is only ever up with the count at zero;
    and once [wait_for_zero] returns [True] no further [count_down]
    changes the latch, so it returns [True] for ever. *)
Theorem latch_is_one_shot (c : Z) (n extra : nat) :
  _count (count_downs (S n) (__init__ c)) <= _count (count_downs n (__init__ c)) /\
  (wait_for_zero (count_downs n (__init__ c)) = Returned true ->
   _count (count_downs n (__init__ c)) = 0 /\
   count_downs (extra + n) (__init__ c) = count_downs n (__init__ c) /\
   wait_for_zero (count_downs (extra + n) (__init__ c)) = Returned true).
Proof.
  split.
  - rewrite count_downs_S. apply count_down_open, count_downs_open.
  - intros Hopen.
    assert (Hev : _event (count_downs n (__init__ c)) = true).
    { unfold wait_for_zero, Event.wait in Hopen.
      destruct (_event (count_downs n (__init__ c))); [reflexivity|discriminate]. }
    assert (Hstay : count_downs (extra + n) (__init__ c) =
                    count_downs n (__init__ c)).
    { induction extra as [|extra IH]; [reflexivity|].
      cbn [Nat.add]. rewrite count_downs_S, IH.
      apply count_down_open; [apply count_downs_open | exact Hev]. }
    split; [apply count_downs_open, Hev|]. split; [exact Hstay|].
    rewrite Hstay. exact Hopen.
Qed.

Lemma latch_is_one_shot_witness :
  count_downs (5 + 2) (__init__ 2) = count_downs 2 (__init__ 2).
Proof.
  exact (proj1 (proj2 (proj2 (latch_is_one_shot 2 2 5) eq_refl))).
Defined.

End LatchState.

Section SemaphorePermits.
Import ThreadSemaphore.
Local Open Scope Z_scope.

Lemma take_false (s s' : t) : take s = (s', false) -> s' = s /\ _value s <= 0.
Proof.
  unfold take. destruct (Z.ltb_spec 0 (_value s)) as [Hlt|Hge];
    intros H; inversion H. subst. split; [reflexivity | lia].
Qed.

Lemma take_true_eq (s s' : t) :
  take s = (s', true) ->
  0 < _value s /\ s' = mk (_value s - 1) (_event s).
Proof.
  unfold take. destruct (Z.ltb_spec 0 (_value s)) as [Hlt|Hge];
    intros H; inversion H. split; [assumption | reflexivity].
Qed.

Lemma apply_ops_app (a b : list Op) (s : t) :
  apply_ops (a ++ b) s = apply_ops b (apply_ops a s).
Proof. unfold apply_ops. apply fold_left_app. Qed.

Lemma others_upto_S (n : nat) (tk : Tick) (rest : list Tick) :
  others_upto (S n) (tk :: rest) = others tk ++ others_upto n rest.
Proof. reflexivity. Qed.

Lemma others_upto_1 (tk : Tick) (rest : list Tick) :
  others_upto 1 (tk :: rest) = others tk.
Proof. unfold others_upto. cbn. apply app_nil_r. Qed.

Lemma _acquire_loop_accounts (timeout : option Q) (start_time : Q)
    (sched : list Tick) (s : t) :
  exists n, (n <= length sched)%nat /\
    match snd (_acquire_loop timeout start_time sched s) with
    | Returned true =>
        0 < _value (apply_ops (others_upto n sched) s) /\
        fst (_acquire_loop timeout start_time sched s) =
          mk (_value (apply_ops (others_upto n sched) s) - 1)
             (_event (apply_ops (others_upto n sched) s))
    | _ =>
        fst (_acquire_loop timeout start_time sched s) =
          apply_ops (others_upto n sched) s
    end.
Proof.
  revert s. induction sched as [|tk rest IH]; intros s; cbn [_acquire_loop].
  - exists O. cbn. auto.
  - destruct (Clock.expired timeout start_time (now tk)).
    + exists 1%nat. rewrite others_upto_1. cbn [length fst snd].
      split; [lia | reflexivity].
    + destruct (take (apply_ops (others tk) s)) as [s2 [|]] eqn:Etake.
      * exists 1%nat. rewrite others_upto_1. cbn [length fst snd].
        split; [lia|]. apply take_true_eq in Etake as [Hv ->].
        split; [exact Hv | reflexivity].
      * apply take_false in Etake as [-> _].
        destruct (IH (apply_ops (others tk) s)) as (n & Hn & Hacc).
        exists (S n). rewrite others_upto_S, apply_ops_app. cbn [length].
        split; [lia | exact Hacc].
Qed.

(** X6: whatever the schedule, a call of [_acquire] changes the semaphore
    by at most its own permit: the semaphore it leaves is the one the
    other threads made over the iterations the call went through, minus
    one permit when the call returns [True] (and then a permit was there
    to take), and exactly that one when it returns [False] or is still
    waiting. *)
Theorem acquire_takes_one_permit_or_none (timeout : option Q)
    (start_time : Q) (sched : list Tick) (s : t) :
  exists n, (n <= length sched)%nat /\
    match snd (_acquire timeout start_time sched s) with
    | Returned true =>
        0 < _value (apply_ops (others_upto n sched) s) /\
        fst (_acquire timeout start_time sched s) =
          mk (_value (apply_ops (others_upto n sched) s) - 1)
             (_event (apply_ops (others_upto n sched) s))
    | _ =>
        fst (_acquire timeout start_time sched s) =
          apply_ops (others_upto n sched) s
    end.
Proof.
  unfold _acquire. destruct (take s) as [s1 [|]] eqn:Etake.
  - exists O. cbn [fst snd]. split; [lia|]. cbn.
    apply take_true_eq in Etake as [Hv ->]. split; [exact Hv | reflexivity].
  - apply take_false in Etake as [-> _]. apply _acquire_loop_accounts.
Qed.

(** X7: the timeout test comes before the attempt to take a permit: when
    it holds at the first poll, [_acquire] returns [False] and takes
    nothing, also when another thread has just released a permit. *)
Theorem timeout_test_precedes_take (timeout : option Q) (start_time clock : Q)
    (ops : list Op) (rest : list Tick) (s : t) :
  _value s <= 0 ->
  Clock.expired timeout start_time clock = true ->
  _acquire timeout start_time (mkTick (ops ++ [OtherRelease]) clock :: rest) s =
    (release (apply_ops ops s), Returned false) /\
  (0 <= _value (apply_ops ops s) ->
   0 < _value (fst (_acquire timeout start_time
                      (mkTick (ops ++ [OtherRelease]) clock :: rest) s))).
Proof.
  intros Hs Hex.
  assert (H : _acquire timeout start_time
                (mkTick (ops ++ [OtherRelease]) clock :: rest) s =
              (release (apply_ops ops s), Returned false)).
  { unfold _acquire. rewrite take_empty by exact Hs.
    cbn [_acquire_loop others now]. rewrite Hex, apply_ops_app. reflexivity. }
  split; [exact H|]. rewrite H. cbn. lia.
Qed.

Lemma timeout_test_precedes_take_witness :
  _acquire (Some 1%Q) 0%Q [mkTick ([] ++ [OtherRelease]) 2%Q] (__init__ 0) =
    (release (apply_ops [] (__init__ 0)), Returned false).
Proof.
  apply (timeout_test_precedes_take (Some 1%Q) 0%Q 2%Q [] [] (__init__ 0)).
  - cbn. lia.
  - reflexivity.
Defined.

Lemma releases_add (n : nat) (s : t) :
  _value (apply_ops (repeat OtherRelease n) s) = _value s + Z.of_nat n.
Proof.
  revert s. induction n as [|n IH]; intros s.
  - cbn. lia.
  - cbn [repeat]. change (apply_ops (OtherRelease :: repeat OtherRelease n) s)
      with (apply_ops (repeat OtherRelease n) (release s)).
    rewrite IH. cbn. lia.
Qed.

(** X8: [release] has no ceiling: [n] releases on a semaphore built with
    [V] leave [V + n] permits, and [V + n] calls of [_acquire] then all
    return [True] at once. *)
Theorem release_has_no_ceiling (V n : nat)
    (cs : list (option Q * Q * list Tick)) :
  length cs = (V + n)%nat ->
  _value (apply_ops (repeat OtherRelease n) (__init__ (Z.of_nat V))) =
    Z.of_nat V + Z.of_nat n /\
  snd (acquires cs (apply_ops (repeat OtherRelease n) (__init__ (Z.of_nat V)))) =
    repeat (Returned true) (V + n) /\
  _value (fst (acquires cs
                 (apply_ops (repeat OtherRelease n) (__init__ (Z.of_nat V))))) = 0.
Proof.
  intros Hlen.
  pose proof (releases_add n (__init__ (Z.of_nat V))) as Hv.
  cbn [__init__ _value] in Hv. split; [exact Hv|].
  rewrite acquires_all_succeed by (rewrite Hv, Hlen; lia).
  rewrite Hlen. auto.
Qed.

Lemma release_has_no_ceiling_witness :
  snd (acquires [(None, 0%Q, []); (None, 0%Q, []); (None, 0%Q, [])]
         (apply_ops (repeat OtherRelease 2) (__init__ 1))) =
  [Returned true; Returned true; Returned true].
Proof.
  exact (proj1 (proj2 (release_has_no_ceiling 1 2
           [(None, 0%Q, []); (None, 0%Q, []); (None, 0%Q, [])] eq_refl))).
Defined.

(** X9: the statement [with semaphore.acquire(timeout):] gives back the
    permit it took, whether its body ends normally or raises, and hands
    on what the body produced.  When [_acquire] returns [False] it raises
    [TimeoutError] instead: the body does not run and nothing is
    released. *)
Theorem with_acquire_returns_the_permit (A : Type) (timeout : option Q)
    (start_time : Q) (sched : list Tick) (body : t -> t * (PyError + A))
    (s s1 : t) (b : bool) :
  _acquire timeout start_time sched s = (s1, Returned b) ->
  (forall x, _value (fst (body x)) = _value x) ->
  if b then
    _value (fst (with_acquire timeout start_time sched body s)) = _value s1 + 1 /\
    snd (with_acquire timeout start_time sched body s) =
      match snd (body s1) with
      | inl e => Raised A e
      | inr a => Completed A a
      end
  else
    with_acquire timeout start_time sched body s = (s1, Raised A TimeoutError).
Proof.
  intros Hacq Hbody. unfold with_acquire, acquire. rewrite Hacq.
  destruct b; [|reflexivity].
  specialize (Hbody s1). destruct (body s1) as [s2 r]. cbn [fst snd] in *.
  unfold release. cbn [_value]. rewrite Hbody. auto.
Qed.

Lemma with_acquire_returns_the_permit_witness :
  _value (fst (with_acquire None 0%Q [] (fun x => (x, inl ValueError : PyError + nat))
                 (__init__ 1))) = 0 + 1.
Proof.
  exact (proj1 (with_acquire_returns_the_permit nat None 0%Q []
                  (fun x => (x, inl ValueError)) (__init__ 1) (mk 0 false) true
                  eq_refl (fun x => eq_refl))).
Defined.

End SemaphorePermits.

(** * Further properties of the thread manager *)

Section ManagerRecords.
Import ThreadManager.
Local Open Scope Z_scope.

Lemma transition_refl (a : ThreadState) : transition a a = true.
Proof. destruct a; reflexivity. Qed.

Lemma same_task_refl (i : ThreadInfo) : same_task i i.
Proof. repeat split. Qed.

Lemma step_record_other (th : gmap Z ThreadInfo) (id id' : Z) (i j : ThreadInfo) :
  th !! id = Some i ->
  id' <> id ->
  exists i', <[id' := j]> th !! id = Some i' /\ same_task i i' /\
    transition (state i) (state i') = true /\
    (state i = TERMINATED \/ state i = ERROR -> i' = i).
Proof.
  intros Hi Hne. exists i. rewrite lookup_insert_ne by exact Hne.
  auto using same_task_refl, transition_refl.
Qed.

(** What one step can do to a record that is there. *)
Lemma step_record (m : t) (ev : Event) (id : Z) (i : ThreadInfo) :
  wf m ->
  _threads m !! id = Some i ->
  exists i', _threads (fst (step m ev)) !! id = Some i' /\ same_task i i' /\
    transition (state i) (state i') = true /\
    (state i = TERMINATED \/ state i = ERROR -> i' = i).
Proof.
  intros W Hi.
  assert (Hsame : exists i', _threads m !! id = Some i' /\ same_task i i' /\
            transition (state i) (state i') = true /\
            (state i = TERMINATED \/ state i = ERROR -> i' = i)).
  { exists i. auto using same_task_refl, transition_refl. }
  pose proof (wf_phase _ _ W id i Hi) as Hph.
  destruct ev as [f a k|id'|id'|id'|w].
  - cbn [step]. unfold submit_task. cbn [set_threads _executor _shutdown].
    assert (Hne : Z.of_nat (size (_threads m)) <> id).
    { intros <-. destruct (wf_fresh _ _ W) as [Hf _]. congruence. }
    destruct (_shutdown (_executor m)); cbn [fst _threads set_work];
      apply step_record_other; assumption.
  - destruct (_work (_executor m) !! id') as [[| |r|r]|] eqn:Ewk;
      try solve [cbn [step]; rewrite Ewk; exact Hsame].
    destruct (_threads m !! id') as [j|] eqn:Ej.
    + rewrite (step_enter m id' j Ej Ewk). cbn [fst set_work set_threads _threads].
      destruct (decide (id' = id)) as [->|Hne];
        [|apply step_record_other; assumption].
      rewrite Ewk in Hph. cbn in Hph. destruct Hph as (Hst & _ & _).
      assert (j = i) by congruence. subst j.
      exists (set_state RUNNING i). rewrite lookup_insert_eq, Hst.
      repeat split; intros [?|?]; congruence.
    + cbn [step]. rewrite Ewk. unfold _execute_task_enter. rewrite Ej.
      exact Hsame.
  - destruct (_work (_executor m) !! id') as [[| |r|r]|] eqn:Ewk;
      try solve [cbn [step]; rewrite Ewk; exact Hsame].
    destruct (_threads m !! id') as [j|] eqn:Ej.
    + destruct (call_of j) as [v|e] eqn:Ecall.
      * rewrite (step_call_return m id' j v Ej Ewk Ecall). exact Hsame.
      * destruct (is_Exception e) eqn:Eex;
          [|rewrite (step_call_escape m id' j e Ej Ewk Ecall Eex); exact Hsame].
        rewrite (step_call_raise m id' j e Ej Ewk Ecall Eex).
        cbn [fst set_work set_threads _threads].
        destruct (decide (id' = id)) as [->|Hne];
          [|apply step_record_other; assumption].
        rewrite Ewk in Hph. cbn in Hph. destruct Hph as (Hst & _ & _).
        assert (j = i) by congruence. subst j.
        exists (set_state ERROR (set_error e i)). rewrite lookup_insert_eq, Hst.
        repeat split; intros [?|?]; congruence.
    + cbn [step]. rewrite Ewk. unfold _execute_task_call. rewrite Ej.
      exact Hsame.
  - destruct (_work (_executor m) !! id') as [[| |r|r]|] eqn:Ewk;
      try solve [cbn [step]; rewrite Ewk; exact Hsame].
    destruct (_threads m !! id') as [j|] eqn:Ej.
    + assert (Hcaught : (exists e, r = FException e /\ is_Exception e = false) \/
                        (forall e, r = FException e -> is_Exception e = true)).
      { destruct r as [v|e]; [right; discriminate|].
        destruct (is_Exception e) eqn:Eex; [right|left; eauto].
        intros e' [= <-]. exact Eex. }
      destruct Hcaught as [(e & -> & Eex)|Hcaught];
        [rewrite (step_callback_escape m id' j e Ej Ewk Eex); exact Hsame|].
      rewrite (step_callback m id' j r Ej Ewk Hcaught).
      cbn [fst set_work set_threads _threads].
      destruct (decide (id' = id)) as [->|Hne];
        [|apply step_record_other; assumption].
      rewrite Ewk in Hph. assert (j = i) by congruence. subst j.
      rewrite lookup_insert_eq. destruct r as [v|e]; cbn in Hph.
      * destruct Hph as (Hst & _ & _ & _).
        exists (set_state TERMINATED (set_result v i)). rewrite Hst.
        repeat split; intros [?|?]; congruence.
      * rewrite (Hcaught e eq_refl) in Hph. destruct Hph as ((Hst & Herr) & _ & _).
        assert (Heq : set_state ERROR (set_error e i) = i).
        { destruct i; cbn in *; subst; reflexivity. }
        rewrite Heq. exists i.
        auto using same_task_refl, transition_refl.
    + cbn [step]. rewrite Ewk. unfold _handle_task_completion. rewrite Ej.
      exact Hsame.
  - exact Hsame.
Qed.

Lemma run_record (evs : list Event) (m : t) (id : Z) (i : ThreadInfo) :
  wf m ->
  _threads m !! id = Some i ->
  exists i', _threads (fst (run evs m)) !! id = Some i' /\ same_task i i' /\
    (state i = TERMINATED \/ state i = ERROR -> i' = i).
Proof.
  revert m i. induction evs as [|ev evs IH]; intros m i W Hi; cbn [run].
  - exists i. auto using same_task_refl.
  - destruct (step_record m ev id i W Hi) as (i1 & Hi1 & Hs1 & _ & Hfin1).
    pose proof (wf_step m ev W) as W1.
    destruct (step m ev) as [m1 r]. cbn [fst] in *.
    destruct (IH m1 i1 W1 Hi1) as (i2 & Hi2 & Hs2 & Hfin2).
    destruct (run evs m1) as [m2 rs]. cbn [fst] in *.
    exists i2. split; [exact Hi2|]. split.
    + destruct Hs1 as (? & ? & ? & ?), Hs2 as (? & ? & ? & ?).
      repeat split; congruence.
    + intros Hterm. specialize (Hfin1 Hterm). subst i1. auto.
Qed.

Lemma run_app_fst (evs1 evs2 : list Event) (m : t) :
  fst (run (evs1 ++ evs2) m) = fst (run evs2 (fst (run evs1 m))).
Proof. rewrite run_app. reflexivity. Qed.

(** X10: a record that has reached TERMINATED or ERROR never changes
    again, whatever is submitted, run or shut down afterwards: later
    readers see the same state, result and error. *)
Theorem finished_record_is_final (before after : list Event) (id : Z)
    (i : ThreadInfo) :
  _threads (fst (run before __init__)) !! id = Some i ->
  state i = TERMINATED \/ state i = ERROR ->
  _threads (fst (run (before ++ after) __init__)) !! id = Some i.
Proof.
  intros Hi Hterm. rewrite run_app_fst.
  destruct (run_record after _ id i (wf_run before _ wf_init) Hi)
    as (i' & Hi' & _ & Hfin).
  rewrite Hi', (Hfin Hterm). reflexivity.
Qed.

Lemma finished_record_is_final_witness :
  _threads
    (fst (run ([Submit (fun _ _ => Return (PyInt 7)) [] [];
                WorkerEnter 0; WorkerCall 0; WorkerCallback 0] ++
               [WorkerCallback 0; WorkerEnter 0; Shutdown false;
                Submit (fun _ _ => Return PyNone) [] []])
            __init__)) !! 0 =
  Some (mkInfo 0 TERMINATED (fun _ _ => Return (PyInt 7)) [] [] (PyInt 7) None).
Proof.
  apply (finished_record_is_final
           [Submit (fun _ _ => Return (PyInt 7)) [] [];
            WorkerEnter 0; WorkerCall 0; WorkerCallback 0]).
  - reflexivity.
  - left; reflexivity.
Defined.

(** X11: records are never removed, and the id, the callable and the
    arguments stored at submission never change: only [state], [result]
    and [error] are ever written again. *)
Theorem record_is_kept (before after : list Event) (id : Z) (i : ThreadInfo) :
  _threads (fst (run before __init__)) !! id = Some i ->
  exists i', _threads (fst (run (before ++ after) __init__)) !! id = Some i' /\
    thread_id i' = thread_id i /\ task i' = task i /\
    args i' = args i /\ kwargs i' = kwargs i.
Proof.
  intros Hi. rewrite run_app_fst.
  destruct (run_record after _ id i (wf_run before _ wf_init) Hi)
    as (i' & Hi' & Hsame & _).
  exists i'. split; [exact Hi' | exact Hsame].
Qed.

Lemma record_is_kept_witness :
  exists i', _threads
    (fst (run ([Submit (fun _ _ => Return (PyInt 7)) [PyInt 1] []] ++
               [WorkerEnter 0; WorkerCall 0]) __init__)) !! 0 = Some i' /\
    thread_id i' = 0 /\ args i' = [PyInt 1].
Proof.
  destruct (record_is_kept [Submit (fun _ _ => Return (PyInt 7)) [PyInt 1] []]
              [WorkerEnter 0; WorkerCall 0] 0
              (mkInfo 0 IDLE (fun _ _ => Return (PyInt 7)) [PyInt 1] [] PyNone None)
              eq_refl) as (i' & H1 & H2 & _ & H4 & _).
  exists i'. auto.
Defined.

(** X12: in one step the state of a record stays as it is or moves
    IDLE -> RUNNING, RUNNING -> TERMINATED or RUNNING -> ERROR; no other
    change ever happens. *)
Theorem state_moves_forward (evs : list Event) (ev : Event) (id : Z)
    (i i' : ThreadInfo) :
  _threads (fst (run evs __init__)) !! id = Some i ->
  _threads (fst (step (fst (run evs __init__)) ev)) !! id = Some i' ->
  transition (state i) (state i') = true.
Proof.
  intros Hi Hi'.
  destruct (step_record _ ev id i (wf_run evs _ wf_init) Hi)
    as (i1 & Hi1 & _ & Htr & _).
  congruence.
Qed.

Lemma state_moves_forward_witness :
  transition IDLE RUNNING = true.
Proof.
  exact (state_moves_forward [Submit (fun _ _ => Return PyNone) [] []]
           (WorkerEnter 0) 0
           (mkInfo 0 IDLE (fun _ _ => Return PyNone) [] [] PyNone None)
           (mkInfo 0 RUNNING (fun _ _ => Return PyNone) [] [] PyNone None)
           eq_refl eq_refl).
Defined.

(** X13: every call of [submit_task], accepted by the executor or not,
    adds exactly one record; the ids in use are 0 .. n-1 for [n] calls,
    and the record found under an id carries that id. *)
Theorem registry_ids_are_dense (evs : list Event) :
  size (_threads (fst (run evs __init__))) = count_submits evs /\
  (forall id, is_Some (_threads (fst (run evs __init__)) !! id) <->
              0 <= id < Z.of_nat (count_submits evs)) /\
  (forall id i, _threads (fst (run evs __init__)) !! id = Some i ->
                thread_id i = id).
Proof.
  pose proof (wf_run evs __init__ wf_init) as W.
  assert (Hsize : size (_threads (fst (run evs __init__))) = count_submits evs).
  { rewrite run_size by apply wf_init. cbn [__init__ _threads].
    rewrite map_size_empty. reflexivity. }
  split; [exact Hsize|]. split.
  - intros id. rewrite <- Hsize. apply (wf_dom _ _ W).
  - apply (wf_id _ _ W).
Qed.

End ManagerRecords.

Section ManagerLifecycle.
Import ThreadManager.
Local Open Scope Z_scope.



(** X15: when the task of a queued work item returns [v]: after the task
    has returned but before the done callback has run, the record is
    still RUNNING without a result, so [wait_for_thread] keeps waiting;
    once the callback has run, the record is TERMINATED with result [v]
    and [wait_for_thread] returns [True].  No other record or work item
    is touched. *)
Theorem returning_task_is_recorded (m : t) (id : Z) (i : ThreadInfo) (v : PyVal) :
  _threads m !! id = Some i ->
  _work (_executor m) !! id = Some Queued ->
  call_of i = Return v ->
  let m1 := fst (step m (WorkerEnter id)) in
  let m2 := fst (step m1 (WorkerCall id)) in
  let m3 := fst (step m2 (WorkerCallback id)) in
  _threads m2 !! id = Some (set_state RUNNING i) /\
  (forall timeout start_time,
     wait_for_thread id timeout start_time [] m2 = (m2, inr Blocked)) /\
  _threads m3 !! id = Some (set_state TERMINATED (set_result v i)) /\
  (forall timeout start_time sched,
     wait_for_thread id timeout start_time sched m3 = (m3, inr (Returned true))) /\
  (forall timeout start_time clock rest,
     Clock.expired timeout start_time clock = false ->
     wait_for_thread id timeout start_time
       (mkTick clock [WorkerCallback id] :: rest) m2 = (m3, inr (Returned true))) /\
  (forall j, j <> id ->
     _threads m3 !! j = _threads m !! j /\
     _work (_executor m3) !! j = _work (_executor m) !! j).
Proof.
  intros Hi Hwk Hcall. cbv zeta.
  rewrite (step_enter m id i Hi Hwk). cbn [fst].
  set (i1 := set_state RUNNING i).
  set (m1 := set_work id Executing (set_threads (<[id:=i1]> (_threads m)) m)).
  assert (Hi1 : _threads m1 !! id = Some i1) by apply lookup_insert_eq.
  assert (Hwk1 : _work (_executor m1) !! id = Some Executing)
    by apply lookup_insert_eq.
  rewrite (step_call_return m1 id i1 v Hi1 Hwk1 Hcall). cbn [fst].
  set (m2 := set_work id (Finished (FResult v)) m1).
  assert (Hi2 : _threads m2 !! id = Some i1) by exact Hi1.
  assert (Hwk2 : _work (_executor m2) !! id = Some (Finished (FResult v)))
    by apply lookup_insert_eq.
  rewrite (step_callback m2 id i1 _ Hi2 Hwk2 (caught_result v)). cbn [fst].
  set (i3 := set_state TERMINATED (set_result v i1)).
  set (m3 := set_work id (Notified (FResult v))
               (set_threads (<[id:=i3]> (_threads m2)) m2)).
  assert (Hi3 : _threads m3 !! id = Some i3) by apply lookup_insert_eq.
  split; [exact Hi2|]. split; [|split; [|split; [|split]]].
  - intros timeout start_time. unfold wait_for_thread. rewrite Hi2.
    cbn [_wait_loop]. unfold is_running. rewrite Hi2. reflexivity.
  - exact Hi3.
  - intros. apply (wait_for_thread_not_running m3 id i3);
      [exact Hi3 | discriminate].
  - intros timeout start_time clock rest Hex. unfold wait_for_thread.
    rewrite Hi2. cbn [_wait_loop now during_sleep]. unfold is_running at 1.
    rewrite Hi2. cbn [mbind option_bind state i1 set_state ThreadState_eqb].
    rewrite Hex. cbn [run].
    rewrite (step_callback m2 id i1 _ Hi2 Hwk2 (caught_result v)). cbn [fst].
    apply (_wait_loop_not_running m3 id i3); [exact Hi3 | discriminate].
  - intros j Hj. cbn. rewrite !lookup_insert_ne by congruence. auto.
Qed.

Lemma returning_task_is_recorded_witness :
  _threads (fst (run [Submit (fun _ _ => Return (PyInt 7)) [] [];
                      WorkerEnter 0; WorkerCall 0; WorkerCallback 0] __init__))
    !! 0 =
  Some (mkInfo 0 TERMINATED (fun _ _ => Return (PyInt 7)) [] [] (PyInt 7) None).
Proof.
  pose proof (returning_task_is_recorded
                (fst (run [Submit (fun _ _ => Return (PyInt 7)) [] []] __init__))
                0 (mkInfo 0 IDLE (fun _ _ => Return (PyInt 7)) [] [] PyNone None)
                (PyInt 7) eq_refl eq_refl eq_refl) as H.
  cbv zeta in H. destruct H as (_ & _ & H & _). exact H.
Defined.

(** X16: [wait_for_thread] called right after an accepted [submit_task],
    before any worker has started the task, returns [True] at once: the
    loop only waits while the state is RUNNING, and the new record is
    IDLE. *)
Theorem wait_right_after_submit (evs : list Event) (f : Callable)
    (a : list PyVal) (k : list (string * PyVal)) (timeout : option Q)
    (start_time : Q) (sched : list Tick) :
  let m := fst (run evs __init__) in
  let id := Z.of_nat (size (_threads m)) in
  let m' := fst (submit_task f a k m) in
  _shutdown (_executor m) = false ->
  snd (submit_task f a k m) = inr id /\
  _work (_executor m') !! id = Some Queued /\
  wait_for_thread id timeout start_time sched m' = (m', inr (Returned true)).
Proof.
  cbv zeta. intros Hopen.
  unfold submit_task. cbn [set_threads _executor _shutdown].
  rewrite Hopen. cbn [fst snd].
  split; [reflexivity|]. split; [apply lookup_insert_eq|].
  apply (wait_for_thread_not_running _ _
           (mkInfo (Z.of_nat (size (_threads (fst (run evs __init__)))))
              IDLE f a k PyNone None)).
  - apply lookup_insert_eq.
  - discriminate.
Qed.

Lemma wait_right_after_submit_witness :
  wait_for_thread 0 None 0%Q []
    (fst (submit_task (fun _ _ => Return PyNone) [] [] (fst (run [] __init__)))) =
  (fst (submit_task (fun _ _ => Return PyNone) [] [] (fst (run [] __init__))),
   inr (Returned true)).
Proof.
  exact (proj2 (proj2 (wait_right_after_submit [] (fun _ _ => Return PyNone)
                         [] [] None 0%Q [] eq_refl))).
Defined.

(** X17: [shutdown] changes neither the records nor the executor's work,
    so it cancels nothing: the workers go through the same steps with the
    same effect whether [shutdown] was called before them or after them.
    Calling it again changes nothing. *)
Theorem shutdown_cancels_nothing (evs : list Event) (w w' : bool) (m : t) :
  forallb is_worker_event evs = true ->
  run evs (shutdown w m) = (shutdown w (fst (run evs m)), snd (run evs m)) /\
  shutdown w' (shutdown w m) = shutdown w m /\
  _threads (shutdown w m) = _threads m /\
  _work (_executor (shutdown w m)) = _work (_executor m).
Proof.
  intros Hev. split; [|repeat split].
  revert m. induction evs as [|ev evs IH]; intros m; [reflexivity|].
  cbn [forallb] in Hev. apply andb_true_iff in Hev as [Hw Hrest].
  specialize (IH Hrest). cbn [run].
  assert (Hstep : step (shutdown w m) ev =
                  (shutdown w (fst (step m ev)), snd (step m ev))).
  { destruct ev as [f a k|id|id|id|w0]; try discriminate Hw; cbn [step];
      unfold _execute_task_enter, _execute_task_call, _handle_task_completion,
        shutdown;
      cbn [_executor _work _threads];
      destruct (_work (_executor m) !! id) as [[| |r|r]|]; try reflexivity;
      destruct (_threads m !! id) as [i|]; try reflexivity; cbn.
    - destruct (task i (args i) (kwargs i)) as [v|e];
        [|destruct (is_Exception e)]; reflexivity.
    - destruct r as [v|e]; [|destruct (is_Exception e)]; reflexivity. }
  rewrite Hstep. destruct (step m ev) as [m1 r]. cbn [fst snd].
  rewrite IH. destruct (run evs m1) as [m2 rs]. reflexivity.
Qed.

Lemma shutdown_cancels_nothing_witness :
  _threads
    (fst (run [WorkerEnter 0; WorkerCall 0; WorkerCallback 0]
            (shutdown false
               (fst (run [Submit (fun _ _ => Return (PyInt 7)) [] []] __init__)))))
    !! 0 =
  Some (mkInfo 0 TERMINATED (fun _ _ => Return (PyInt 7)) [] [] (PyInt 7) None).
Proof.
  rewrite (proj1 (shutdown_cancels_nothing
                    [WorkerEnter 0; WorkerCall 0; WorkerCallback 0] false false
                    (fst (run [Submit (fun _ _ => Return (PyInt 7)) [] []] __init__))
                    eq_refl)).
  reflexivity.
Defined.

End ManagerLifecycle.

Section ManagerPolling.
Import ThreadManager.
Local Open Scope Z_scope.

(** What the loop of [wait_for_thread] can come back with, on a manager
    that satisfies the invariant and has the record. *)
Lemma _wait_loop_result (id : Z) (timeout : option Q) (start_time : Q)
    (sched : list Tick) (m : t) (i : ThreadInfo) :
  wf m ->
  _threads m !! id = Some i ->
  exists i', _threads (fst (_wait_loop id timeout start_time sched m)) !! id
             = Some i' /\
    match snd (_wait_loop id timeout start_time sched m) with
    | inl _ => False
    | inr (Returned true) => state i' <> RUNNING
    | inr (Returned false) =>
        state i' = RUNNING /\
        exists tk, In tk sched /\
          Clock.expired timeout start_time (now tk) = true
    | inr Blocked => state i' = RUNNING
    end.
Proof.
  revert m i. induction sched as [|tk rest IH]; intros m i W Hi;
    cbn [_wait_loop]; unfold is_running; rewrite Hi;
    cbn [mbind option_bind]; destruct (state i) eqn:Est;
    cbn [ThreadState_eqb fst snd];
    try solve [exists i; split; [exact Hi | congruence]].
  destruct (Clock.expired timeout start_time (now tk)) eqn:Hex; cbn [fst snd].
  - exists i. split; [exact Hi|]. split; [exact Est|].
    exists tk. cbn [In]. auto.
  - destruct (run_record (during_sleep tk) m id i W Hi) as (i1 & Hi1 & _).
    destruct (IH _ i1 (wf_run (during_sleep tk) m W) Hi1) as (i' & Hi' & Hres).
    exists i'. split; [exact Hi'|].
    destruct (snd (_wait_loop id timeout start_time rest
                     (fst (run (during_sleep tk) m)))) as [e|[[|]|]];
      try exact Hres.
    destruct Hres as (Hst & tk' & Hin & Hex').
    split; [exact Hst|]. exists tk'. cbn [In]. auto.
Qed.

(** X18: on every manager a run can reach, whatever the other threads do
    while it polls, [wait_for_thread] raises nothing but [ValueError], and
    raises it exactly when the id has no record at the time of the call;
    the lookup inside the loop never fails. *)
Theorem wait_for_thread_raises_only_value_error (evs : list Event) (id : Z)
    (timeout : option Q) (start_time : Q) (sched : list Tick) :
  let m := fst (run evs __init__) in
  (forall e, snd (wait_for_thread id timeout start_time sched m) = inl e ->
             e = ValueError) /\
  (snd (wait_for_thread id timeout start_time sched m) = inl ValueError <->
   _threads m !! id = None).
Proof.
  cbv zeta. pose proof (wf_run evs __init__ wf_init) as W.
  unfold wait_for_thread.
  destruct (_threads (fst (run evs __init__)) !! id) as [i|] eqn:Hi; cbn [snd].
  - destruct (_wait_loop_result id timeout start_time sched _ i W Hi)
      as (i' & _ & Hres).
    destruct (snd (_wait_loop id timeout start_time sched (fst (run evs __init__))))
      as [e|o]; [contradiction|].
    split; [discriminate|]. split; discriminate.
  - split; [intros e [= <-]; reflexivity|]. split; reflexivity.
Qed.

(** X19: what the answer of [wait_for_thread] means, on every manager a
    run can reach: when it returns [True] the record is not RUNNING in
    the manager it leaves; when it returns [False] the record is still
    RUNNING and the timeout test held at one of its polls. *)
Theorem wait_for_thread_answer (evs : list Event) (id : Z)
    (timeout : option Q) (start_time : Q) (sched : list Tick) (m' : t)
    (b : bool) :
  wait_for_thread id timeout start_time sched (fst (run evs __init__)) =
    (m', inr (Returned b)) ->
  exists i', _threads m' !! id = Some i' /\
    if b then state i' <> RUNNING
    else state i' = RUNNING /\
         exists t tk, timeout = Some t /\ In tk sched /\
           ~ (t == 0)%Q /\ (t < now tk - start_time)%Q.
Proof.
  pose proof (wf_run evs __init__ wf_init) as W.
  unfold wait_for_thread.
  destruct (_threads (fst (run evs __init__)) !! id) as [i|] eqn:Hi;
    [|discriminate].
  intros Hw.
  destruct (_wait_loop_result id timeout start_time sched _ i W Hi)
    as (i' & Hi' & Hres).
  rewrite Hw in Hi', Hres. cbn [fst snd] in *.
  exists i'. split; [exact Hi'|]. destruct b; [exact Hres|].
  destruct Hres as (Hst & tk & Hin & Hex). split; [exact Hst|].
  apply expired_true in Hex as (t0 & -> & Hz & Hgt). exists t0, tk. auto.
Qed.

Lemma wait_for_thread_answer_witness :
  exists i', _threads
      (fst (run [Submit (fun _ _ => Return PyNone) [] []; WorkerEnter 0] __init__))
      !! 0 = Some i' /\
    state i' = RUNNING /\
    exists t tk, Some 1%Q = Some t /\ In tk [mkTick 2%Q []] /\
      ~ (t == 0)%Q /\ (t < now tk - 0)%Q.
Proof.
  exact (wait_for_thread_answer
           [Submit (fun _ _ => Return PyNone) [] []; WorkerEnter 0] 0
           (Some 1%Q) 0%Q [mkTick 2%Q []] _ false eq_refl).
Defined.

Lemma expired_negative (t start_time clock : Q) :
  (t < 0)%Q -> (start_time <= clock)%Q ->
  Clock.expired (Some t) start_time clock = true.
Proof.
  intros Ht Hclock. apply expired_true. exists t. split; [reflexivity|]. split.
  - intros Heq. rewrite Heq in Ht. exact (Qlt_irrefl 0 Ht).
  - apply Qlt_le_trans with 0%Q; [exact Ht|].
    apply (Qplus_le_l _ _ start_time). ring_simplify. exact Hclock.
Qed.

(** X20: a negative timeout is a timeout that has already run out: with
    a clock that does not go backwards, [_acquire] on a semaphore without
    a permit and [wait_for_thread] on a RUNNING record both return
    [False] at their first poll. *)
Theorem negative_timeout_gives_up_at_once (t start_time : Q) :
  (t < 0)%Q ->
  (forall s tk rest,
     ThreadSemaphore._value s <= 0 ->
     (start_time <= ThreadSemaphore.now tk)%Q ->
     ThreadSemaphore._acquire (Some t) start_time (tk :: rest) s =
       (ThreadSemaphore.apply_ops (ThreadSemaphore.others tk) s, Returned false)) /\
  (forall m id i tk rest,
     _threads m !! id = Some i ->
     state i = RUNNING ->
     (start_time <= now tk)%Q ->
     wait_for_thread id (Some t) start_time (tk :: rest) m =
       (m, inr (Returned false))).
Proof.
  intros Ht. split.
  - intros s tk rest Hs Hclock. unfold ThreadSemaphore._acquire.
    rewrite take_empty by exact Hs. cbn [ThreadSemaphore._acquire_loop].
    rewrite (expired_negative t start_time _ Ht Hclock). reflexivity.
  - intros m id i tk rest Hi Hst Hclock. unfold wait_for_thread. rewrite Hi.
    cbn [_wait_loop]. unfold is_running. rewrite Hi.
    cbn [mbind option_bind]. rewrite Hst. cbn [ThreadState_eqb].
    rewrite (expired_negative t start_time _ Ht Hclock). reflexivity.
Qed.

Lemma negative_timeout_gives_up_at_once_witness :
  ThreadSemaphore._acquire (Some (-1)%Q) 5%Q
    [ThreadSemaphore.mkTick [ThreadSemaphore.OtherRelease] 5%Q]
    (ThreadSemaphore.__init__ 0) =
  (ThreadSemaphore.apply_ops [ThreadSemaphore.OtherRelease]
     (ThreadSemaphore.__init__ 0), Returned false).
Proof.
  apply (proj1 (negative_timeout_gives_up_at_once (-1)%Q 5%Q eq_refl)).
  - cbn. lia.
  - cbn. discriminate.
Defined.

End ManagerPolling.

Section SemaphoreEvent.
Import ThreadSemaphore.
Local Open Scope Z_scope.

Lemma take_same_value (s s' : t) :
  _value s = _value s' ->
  snd (take s) = snd (take s') /\ _value (fst (take s)) = _value (fst (take s')).
Proof.
  intros H. unfold take. rewrite H.
  destruct (0 <? _value s'); cbn [fst snd _value]; auto.
Qed.

Lemma apply_ops_same_value (ops : list Op) (s s' : t) :
  _value s = _value s' ->
  _value (apply_ops ops s) = _value (apply_ops ops s').
Proof.
  revert s s'. unfold apply_ops.
  induction ops as [|o ops IH]; intros s s' H; cbn [fold_left]; [exact H|].
  apply IH. destruct o; cbn [apply_op].
  - apply take_same_value, H.
  - cbn. lia.
Qed.

Lemma _acquire_loop_same_value (timeout : option Q) (start_time : Q)
    (sched : list Tick) (s s' : t) :
  _value s = _value s' ->
  snd (_acquire_loop timeout start_time sched s) =
    snd (_acquire_loop timeout start_time sched s') /\
  _value (fst (_acquire_loop timeout start_time sched s)) =
    _value (fst (_acquire_loop timeout start_time sched s')).
Proof.
  revert s s'. induction sched as [|tk rest IH]; intros s s' H;
    cbn [_acquire_loop]; [auto|].
  pose proof (apply_ops_same_value (others tk) s s' H) as H1.
  destruct (Clock.expired timeout start_time (now tk)); [auto|].
  destruct (take_same_value _ _ H1) as [Hb Hv].
  destruct (take (apply_ops (others tk) s)) as [s2 b],
           (take (apply_ops (others tk) s')) as [s2' b'].
  cbn [fst snd] in *. subst b'. destruct b; [auto | apply IH, Hv].
Qed.

(** X23: the event that [release] sets plays no part in acquiring: the
    answer of [_acquire] and the number of permits it leaves depend only
    on the number of permits, the clock and what the other threads
    do. *)
Theorem acquire_ignores_the_event (timeout : option Q) (start_time : Q)
    (sched : list Tick) (value : Z) (flag flag' : bool) :
  snd (_acquire timeout start_time sched (mk value flag)) =
    snd (_acquire timeout start_time sched (mk value flag')) /\
  _value (fst (_acquire timeout start_time sched (mk value flag))) =
    _value (fst (_acquire timeout start_time sched (mk value flag'))).
Proof.
  split.
  - unfold _acquire.
    destruct (take_same_value (mk value flag) (mk value flag') eq_refl) as [Hb Hv].
    destruct (take (mk value flag)) as [s1 b], (take (mk value flag')) as [s1' b'].
    cbn [fst snd] in *. subst b'. destruct b; [reflexivity|].
    apply _acquire_loop_same_value, Hv.
  - unfold _acquire.
    destruct (take_same_value (mk value flag) (mk value flag') eq_refl) as [Hb Hv].
    destruct (take (mk value flag)) as [s1 b], (take (mk value flag')) as [s1' b'].
    cbn [fst snd] in *. subst b'. destruct b; [exact Hv|].
    apply _acquire_loop_same_value, Hv.
Qed.

End SemaphoreEvent.

Section ManagerEscapes.
Import ThreadManager.
Local Open Scope Z_scope.






End ManagerEscapes.

Section UnlockedIteration.
Import ThreadManager.
Local Open Scope Z_scope.

Lemma reaches_refl (m : t) : reaches m m.
Proof. exists []. reflexivity. Qed.

Lemma reaches_run (evs : list Event) (m : t) : reaches m (fst (run evs m)).
Proof. exists evs. reflexivity. Qed.

Lemma reaches_trans (m1 m2 m3 : t) :
  reaches m1 m2 -> reaches m2 m3 -> reaches m1 m3.
Proof.
  intros [e1 ->] [e2 ->]. exists (e1 ++ e2). symmetry. apply run_app_fst.
Qed.

Lemma wf_reaches (m m' : t) : wf m -> reaches m m' -> wf m'.
Proof. intros W [evs ->]. apply wf_run, W. Qed.

Lemma transition_rank (a b : ThreadState) :
  transition a b = true -> (rank a <= rank b)%nat.
Proof. destruct a, b; cbn; intros H; try discriminate; lia. Qed.

(** A record only moves forward, over any number of steps. *)
Lemma reaches_rank (m m' : t) (id : Z) (i : ThreadInfo) :
  wf m ->
  reaches m m' ->
  _threads m !! id = Some i ->
  exists i', _threads m' !! id = Some i' /\ (rank (state i) <= rank (state i'))%nat.
Proof.
  intros W [evs ->]. revert m i W.
  induction evs as [|ev evs IH]; intros m i W Hi; cbn [run].
  - exists i. auto.
  - destruct (step_record m ev id i W Hi) as (i1 & Hi1 & _ & Htr & _).
    pose proof (wf_step m ev W) as W1.
    destruct (step m ev) as [m1 r]. cbn [fst] in *.
    destruct (IH m1 i1 W1 Hi1) as (i2 & Hi2 & Hle).
    destruct (run evs m1) as [m2 rs]. cbn [fst] in *.
    exists i2. split; [exact Hi2|]. apply transition_rank in Htr. lia.
Qed.

(** What an iteration comes back with: every decision to keep or to skip
    a record was taken on a state the manager went through during the
    call. *)
Lemma _iterate_spec (test : ThreadInfo -> bool) (size0 remaining : nat) :
  forall (k : nat) (sched : list IterTick) (m m' : t) (res : PyError + list Z),
  _iterate test size0 k remaining sched m = (m', res) ->
  reaches m m' /\
  match res with
  | inl e => e = RuntimeError /\ size (_threads m') <> size0
  | inr ids =>
      size (_threads m') = size0 /\
      (length ids <= remaining)%nat /\
      List.NoDup ids /\
      (forall id, In id ids ->
         Z.of_nat k <= id < Z.of_nat (k + remaining) /\
         exists mid i, reaches m mid /\ reaches mid m' /\
           _threads mid !! id = Some i /\ test i = true) /\
      (forall id, Z.of_nat k <= id < Z.of_nat (k + remaining) -> ~ In id ids ->
         exists mid, reaches m mid /\ reaches mid m' /\
           forall i, _threads mid !! id = Some i -> test i = false)
  end.
Proof.
  induction remaining as [|r IH]; intros k sched m m' res; cbn [_iterate];
    set (m1 := fst (run (before_next (hd quiet_tick sched)) m));
    assert (R1 : reaches m m1) by apply reaches_run;
    destruct (Nat.eqb_spec (size (_threads m1)) size0) as [Hsz|Hsz];
    cbn [negb].
  - intros [= <- <-]. split; [exact R1|]. split; [exact Hsz|].
    split; [cbn; lia|]. split; [constructor|]. split.
    + intros id [].
    + intros id Hid. lia.
  - intros [= <- <-]. auto.
  - set (m2 := fst (run (before_read (hd quiet_tick sched)) m1)).
    assert (R2 : reaches m m2)
      by exact (reaches_trans m m1 m2 R1 (reaches_run _ m1)).
    destruct (_iterate test size0 (S k) r (tl sched) m2) as [m3 res3] eqn:E.
    destruct (IH _ _ _ _ _ E) as [R3 Hres].
    assert (R : reaches m m3) by exact (reaches_trans m m2 m3 R2 R3).
    destruct res3 as [e|ids]; intros [= <- <-]; (split; [exact R|]);
      [exact Hres|].
    destruct Hres as (Hsize & Hlen & Hnd & Hin & Hout).
    set (keep := match _threads m2 !! Z.of_nat k with
                 | Some info => test info
                 | None => false
                 end).
    assert (Hfresh : ~ In (Z.of_nat k) ids).
    { intros Hk. destruct (Hin _ Hk) as [Hr _]. lia. }
    assert (Hin' : forall id, In id ids ->
              Z.of_nat k <= id < Z.of_nat (k + S r) /\
              exists mid i, reaches m mid /\ reaches mid m3 /\
                _threads mid !! id = Some i /\ test i = true).
    { intros id Hid. destruct (Hin id Hid) as (Hr & mid & i & Ra & Rb & Hl & Ht).
      split; [lia|]. exists mid, i. repeat split; try assumption.
      exact (reaches_trans m m2 mid R2 Ra). }
    assert (Hout' : forall id, Z.of_nat (S k) <= id < Z.of_nat (S k + r) ->
              ~ In id ids ->
              exists mid, reaches m mid /\ reaches mid m3 /\
                forall i, _threads mid !! id = Some i -> test i = false).
    { intros id Hr Hn. destruct (Hout id Hr Hn) as (mid & Ra & Rb & Hl).
      exists mid. repeat split; try assumption.
      exact (reaches_trans m m2 mid R2 Ra). }
    split; [exact Hsize|]. destruct keep eqn:Hkeep.
    + split; [cbn [length]; lia|]. split; [constructor; assumption|]. split.
      * intros id [<-|Hid]; [|apply Hin', Hid]. split; [lia|].
        unfold keep in Hkeep.
        destruct (_threads m2 !! Z.of_nat k) as [info|] eqn:El; [|discriminate].
        exists m2, info. auto.
      * intros id Hr Hn. apply Hout'; [|intros Hc; apply Hn; right; exact Hc].
        assert (id <> Z.of_nat k) by (intros ->; apply Hn; left; reflexivity).
        lia.
    + split; [lia|]. split; [exact Hnd|]. split; [exact Hin'|].
      intros id Hr Hn. destruct (Z.eq_dec id (Z.of_nat k)) as [->|Hne].
      * exists m2. repeat split; try assumption. intros i Hi.
        unfold keep in Hkeep. rewrite Hi in Hkeep. exact Hkeep.
      * apply Hout'; [lia | exact Hn].
  - intros [= <- <-]. auto.
Qed.

(** With no other thread running, an iteration keeps exactly the records
    that pass the test. *)
Lemma _iterate_quiet (test : ThreadInfo -> bool) (m : t) (remaining : nat) :
  forall k : nat,
  exists ids,
    _iterate test (size (_threads m)) k remaining [] m = (m, inr ids) /\
    forall id, In id ids <->
      Z.of_nat k <= id < Z.of_nat (k + remaining) /\
      exists i, _threads m !! id = Some i /\ test i = true.
Proof.
  induction remaining as [|r IH]; intros k; cbn [_iterate hd tl quiet_tick
    before_next before_read run fst]; rewrite Nat.eqb_refl; cbn [negb].
  - exists []. split; [reflexivity|]. intros id. split; [intros []|].
    intros [Hr _]. lia.
  - destruct (IH (S k)) as (ids & -> & Hids).
    destruct (_threads m !! Z.of_nat k) as [info|] eqn:El;
      [destruct (test info) eqn:Ht|].
    + exists (Z.of_nat k :: ids). split; [reflexivity|]. intros id. cbn [In].
      rewrite Hids. split.
      * intros [<-|[Hr Hex]]; [split; [lia | eauto] | split; [lia | exact Hex]].
      * intros [Hr Hex]. destruct (Z.eq_dec (Z.of_nat k) id); [auto|].
        right. split; [lia | exact Hex].
    + exists ids. split; [reflexivity|]. intros id. rewrite Hids. split.
      * intros [Hr Hex]. split; [lia | exact Hex].
      * intros [Hr (i & Hi & Hti)]. split; [|eauto].
        assert (id <> Z.of_nat k) by (intros ->; congruence). lia.
    + exists ids. split; [reflexivity|]. intros id. rewrite Hids. split.
      * intros [Hr Hex]. split; [lia | exact Hex].
      * intros [Hr (i & Hi & Hti)]. split; [|eauto].
        assert (id <> Z.of_nat k) by (intros ->; congruence). lia.
Qed.

Lemma has_state_true (st : ThreadState) (i : ThreadInfo) :
  has_state st i = true <-> state i = st.
Proof. unfold has_state. destruct (state i), st; cbn; split; congruence. Qed.

Lemma rank_running (st : ThreadState) : rank st = 1%nat <-> st = RUNNING.
Proof. destruct st; cbn; split; congruence. Qed.

Lemma count_submits_no_submit (evs : list Event) :
  no_submit evs = true -> count_submits evs = O.
Proof.
  induction evs as [|ev evs IH]; [reflexivity|].
  cbn [no_submit forallb count_submits]. intros H.
  apply andb_true_iff in H as [Hev Hrest].
  destruct (is_submit ev); [discriminate|]. rewrite (IH Hrest). reflexivity.
Qed.

Lemma run_no_submit_size (evs : list Event) (m : t) :
  wf m -> no_submit evs = true ->
  size (_threads (fst (run evs m))) = size (_threads m).
Proof.
  intros W H. rewrite run_size by exact W.
  rewrite (count_submits_no_submit evs H). lia.
Qed.

Lemma reaches_size (m m' : t) :
  wf m -> reaches m m' -> (size (_threads m) <= size (_threads m'))%nat.
Proof. intros W [evs ->]. rewrite run_size by exact W. lia. Qed.

(** Only a record added during the iteration makes it fail. *)
Lemma _iterate_no_submit (test : ThreadInfo -> bool) (remaining : nat) :
  forall (k : nat) (sched : list IterTick) (m : t),
  wf m ->
  Forall tick_no_submit sched ->
  exists ids,
    snd (_iterate test (size (_threads m)) k remaining sched m) = inr ids.
Proof.
  induction remaining as [|r IH]; intros k sched m W Hq; cbn [_iterate].
  - assert (Hhd : tick_no_submit (hd quiet_tick sched))
      by (destruct Hq; [split; reflexivity | assumption]).
    rewrite (run_no_submit_size _ m W (proj1 Hhd)), Nat.eqb_refl. cbn. eauto.
  - assert (Hhd : tick_no_submit (hd quiet_tick sched))
      by (destruct Hq; [split; reflexivity | assumption]).
    assert (Htl : Forall tick_no_submit (tl sched))
      by (destruct Hq; [constructor | assumption]).
    rewrite (run_no_submit_size _ m W (proj1 Hhd)), Nat.eqb_refl. cbn [negb].
    set (m1 := fst (run (before_next (hd quiet_tick sched)) m)).
    assert (W1 : wf m1) by apply wf_run, W.
    set (m2 := fst (run (before_read (hd quiet_tick sched)) m1)).
    assert (W2 : wf m2) by apply wf_run, W1.
    assert (Hsz : size (_threads m) = size (_threads m2)).
    { unfold m2. rewrite (run_no_submit_size _ m1 W1 (proj2 Hhd)).
      unfold m1. rewrite (run_no_submit_size _ m W (proj1 Hhd)). reflexivity. }
    rewrite Hsz. destruct (IH (S k) (tl sched) m2 W2 Htl) as (ids & Hids).
    destruct (_iterate test (size (_threads m2)) (S k) r (tl sched) m2)
      as [m3 res]. cbn [snd] in *. subst res. cbn [snd]. eauto.
Qed.

(** X21: when no other thread runs during the call, [get_active_threads]
    returns exactly the records whose state is RUNNING: on a manager a
    run can reach, those whose work is executing, or has returned and
    awaits its callback, or has raised an exception that is not an
    [Exception], whose record stays RUNNING for ever.  Queued, refused,
    completed tasks and tasks that failed with an [Exception] are not
    listed. *)
Theorem active_threads_are_the_started_work (evs : list Event) :
  exists ids,
    get_active_threads [] (fst (run evs __init__)) =
      (fst (run evs __init__), inr ids) /\
    forall id, In id ids <->
      exists i, _threads (fst (run evs __init__)) !! id = Some i /\
        (_work (_executor (fst (run evs __init__))) !! id = Some Executing \/
         (exists v, _work (_executor (fst (run evs __init__))) !! id
                    = Some (Finished (FResult v))) \/
         (exists e, is_Exception e = false /\
            (_work (_executor (fst (run evs __init__))) !! id
               = Some (Finished (FException e)) \/
             _work (_executor (fst (run evs __init__))) !! id
               = Some (Notified (FException e))))).
Proof.
  set (m := fst (run evs __init__)).
  assert (W : wf m) by apply wf_run, wf_init.
  destruct (_iterate_quiet (has_state RUNNING) m (size (_threads m)) 0)
    as (ids & Hrun & Hids).
  exists ids. split; [exact Hrun|]. intros id. rewrite Hids. split.
  - intros (_ & i & Hi & Ht). exists i. split; [exact Hi|].
    apply has_state_true in Ht.
    pose proof (wf_phase _ _ W id i Hi) as Hph.
    destruct (_work (_executor m) !! id) as [[| |[v|e]|[v|e]]|]; cbn in Hph.
    + destruct Hph as (Hst & _); congruence.
    + left; reflexivity.
    + right; left; eauto.
    + destruct Hph as (Hex & _). destruct (is_Exception e) eqn:Eex.
      * destruct Hex; congruence.
      * right; right. exists e. auto.
    + destruct Hph as (Hst & _); congruence.
    + destruct Hph as (Hex & _). destruct (is_Exception e) eqn:Eex.
      * destruct Hex; congruence.
      * right; right. exists e. auto.
    + destruct Hph as (Hst & _); congruence.
  - intros (i & Hi & Hwk). split.
    + cbn [Nat.add]. apply (wf_dom _ _ W). rewrite Hi. eauto.
    + exists i. split; [exact Hi|]. apply has_state_true.
      pose proof (wf_phase _ _ W id i Hi) as Hph.
      destruct Hwk as [Hwk|[(v & Hwk)|(e & Hex & [Hwk|Hwk])]];
        rewrite Hwk in Hph; cbn in Hph; try rewrite Hex in Hph; tauto.
Qed.

(** X25: [get_active_threads] while other threads run.  It raises
    nothing but [RuntimeError], and raises it only when a record was
    added during the call, never when no [submit_task] runs meanwhile.
    When it returns, no record is listed twice; every record listed has
    been started (it is not IDLE when the call returns); and every record
    that is RUNNING when the call begins and still RUNNING when it
    returns is listed. *)
Theorem active_threads_while_others_run (evs : list Event)
    (sched : list IterTick) :
  let m := fst (run evs __init__) in
  let m' := fst (get_active_threads sched m) in
  reaches m m' /\
  (Forall tick_no_submit sched ->
   exists ids, snd (get_active_threads sched m) = inr ids) /\
  match snd (get_active_threads sched m) with
  | inl e =>
      e = RuntimeError /\ (size (_threads m) < size (_threads m'))%nat
  | inr ids =>
      List.NoDup ids /\
      (forall id, In id ids ->
         exists i', _threads m' !! id = Some i' /\ state i' <> IDLE) /\
      (forall id i i',
         _threads m !! id = Some i -> state i = RUNNING ->
         _threads m' !! id = Some i' -> state i' = RUNNING ->
         In id ids)
  end.
Proof.
  cbv zeta. set (m := fst (run evs __init__)).
  assert (W : wf m) by apply wf_run, wf_init.
  unfold get_active_threads.
  destruct (_iterate (has_state RUNNING) (size (_threads m)) 0
              (size (_threads m)) sched m) as [m' res] eqn:E.
  destruct (_iterate_spec _ _ _ _ _ _ _ _ E) as [R Hres]. cbn [fst snd].
  split; [exact R|]. split.
  - intros Hq.
    destruct (_iterate_no_submit (has_state RUNNING) (size (_threads m)) 0
                sched m W Hq) as (ids & Hids).
    rewrite E in Hids. eauto.
  - destruct res as [e|ids].
    + destruct Hres as [-> Hne]. split; [reflexivity|].
      pose proof (reaches_size m m' W R). lia.
    + destruct Hres as (_ & _ & Hnd & Hin & Hout). split; [exact Hnd|]. split.
      * intros id Hid.
        destruct (Hin id Hid) as (_ & mid & i & Ra & Rb & Hl & Ht).
        apply has_state_true in Ht.
        destruct (reaches_rank mid m' id i (wf_reaches m mid W Ra) Rb Hl)
          as (i' & Hi' & Hle).
        exists i'. split; [exact Hi'|]. rewrite Ht in Hle. cbn in Hle.
        intros Hidle. rewrite Hidle in Hle. cbn in Hle. lia.
      * intros id i i' Hi Hst Hi' Hst'.
        destruct (in_dec Z.eq_dec id ids) as [Hyes|Hno]; [exact Hyes|].
        exfalso.
        assert (Hr : Z.of_nat 0 <= id < Z.of_nat (0 + size (_threads m))).
        { cbn [Nat.add]. apply (wf_dom _ _ W). rewrite Hi. eauto. }
        destruct (Hout id Hr Hno) as (mid & Ra & Rb & Hl).
        destruct (reaches_rank m mid id i W Ra Hi) as (j & Hj & Hle1).
        destruct (reaches_rank mid m' id j (wf_reaches m mid W Ra) Rb Hj)
          as (j' & Hj' & Hle2).
        assert (j' = i') by congruence. subst j'.
        rewrite Hst in Hle1. rewrite Hst' in Hle2. cbn in Hle1, Hle2.
        assert (Hrun : state j = RUNNING) by (apply rank_running; lia).
        specialize (Hl j Hj). apply has_state_true in Hrun. congruence.
Qed.

End UnlockedIteration.

Section Statistics.
Import ThreadManager.
Local Open Scope Z_scope.





Lemma quiet_counts (m : t) (remaining : nat) :
  forall k : nat,
  (forall id, Z.of_nat k <= id < Z.of_nat (k + remaining) ->
              is_Some (_threads m !! id)) ->
  exists a c e d,
    _iterate (has_state RUNNING) (size (_threads m)) k remaining [] m = (m, inr a) /\
    _iterate (has_state TERMINATED) (size (_threads m)) k remaining [] m = (m, inr c) /\
    _iterate (has_state ERROR) (size (_threads m)) k remaining [] m = (m, inr e) /\
    _iterate (has_state IDLE) (size (_threads m)) k remaining [] m = (m, inr d) /\
    (length a + length c + length e + length d = remaining)%nat.
Proof.
  induction remaining as [|r IH]; intros k Hall; cbn [_iterate hd tl quiet_tick
    before_next before_read run fst]; rewrite Nat.eqb_refl; cbn [negb].
  - exists [], [], [], []. repeat split; reflexivity.
  - destruct (IH (S k)) as (a & c & e & d & -> & -> & -> & -> & Hlen).
    { intros id Hid. apply Hall. lia. }
    destruct (Hall (Z.of_nat k) ltac:(lia)) as [info ->].
    unfold has_state. destruct (state info); cbn [ThreadState_eqb].
    + exists a, c, e, (Z.of_nat k :: d). repeat split; cbn [length]; lia.
    + exists (Z.of_nat k :: a), c, e, d. repeat split; cbn [length]; lia.
    + exists a, (Z.of_nat k :: c), e, d. repeat split; cbn [length]; lia.
    + exists a, c, (Z.of_nat k :: e), d. repeat split; cbn [length]; lia.
Qed.

(** X26: when no other thread runs during [update_statistics], the
    counters count every record once: Active + Completed + Errors plus
    the number of IDLE records is Total, so Total minus the three
    counters shown is the number of tasks not yet started. *)
Theorem statistics_add_up (evs : list Event) :
  exists st idle,
    ThreadManagerGUI.update_statistics ThreadManagerGUI.quiet_pass
      ThreadManagerGUI.quiet_pass ThreadManagerGUI.quiet_pass []
      (fst (run evs __init__)) = (fst (run evs __init__), inr st) /\
    ThreadManagerGUI.count_state IDLE ThreadManagerGUI.quiet_pass
      (fst (run evs __init__)) = (fst (run evs __init__), inr idle) /\
    (ThreadManagerGUI.active st + ThreadManagerGUI.completed st +
     ThreadManagerGUI.errors st + idle = ThreadManagerGUI.total st)%nat /\
    ThreadManagerGUI.total st = count_submits evs.
Proof.
  set (m := fst (run evs __init__)).
  assert (W : wf m) by apply wf_run, wf_init.
  destruct (quiet_counts m (size (_threads m)) 0)
    as (a & c & e & d & Ha & Hc & He & Hd & Hlen).
  { intros id Hid. apply (wf_dom _ _ W). cbn [Nat.add] in Hid. lia. }
  exists (ThreadManagerGUI.mkStatistics (length a) (length c) (length e)
            (size (_threads m))), (length d).
  unfold ThreadManagerGUI.update_statistics, ThreadManagerGUI.count_state.
  cbn [ThreadManagerGUI.quiet_pass ThreadManagerGUI.before_pass
       ThreadManagerGUI.during_pass run fst].
  rewrite Ha, Hc, He, Hd.
  cbn [run fst ThreadManagerGUI.active ThreadManagerGUI.completed
       ThreadManagerGUI.errors ThreadManagerGUI.total].
  repeat split; [exact Hlen|].
  unfold m. rewrite run_size by apply wf_init.
  cbn [__init__ _threads]. rewrite map_size_empty. reflexivity.
Qed.

(** A task that finishes between the first two passes is counted as
    active and as completed: the three counters can add up to more than
    Total. *)
Lemma statistics_may_count_twice :
  snd (ThreadManagerGUI.update_statistics ThreadManagerGUI.quiet_pass
         (ThreadManagerGUI.mkPass [WorkerCall 0; WorkerCallback 0] [])
         ThreadManagerGUI.quiet_pass []
         (fst (run [Submit (fun _ _ => Return (PyInt 7)) [] []; WorkerEnter 0]
                 __init__))) =
  inr (ThreadManagerGUI.mkStatistics 1 1 0 1).
Proof. reflexivity. Qed.

(** A submission during the iteration makes [get_active_threads]
    raise. *)
Lemma active_threads_fail_when_a_record_is_added :
  snd (get_active_threads
         [mkIterTick [] [Submit (fun _ _ => Return PyNone) [] []]]
         (fst (run [Submit (fun _ _ => Return PyNone) [] []; WorkerEnter 0]
                 __init__))) = inl RuntimeError.
Proof. reflexivity. Qed.

End Statistics.
